(** * PlanItOut: the task store and the scheduling heuristic

    A shallow embedding of the logic in [src/components/task-calendar.tsx]
    ([addTask], [updateTask], [deleteTask], [sortTasksByAI]) and of the drag
    and drop handlers of [calendar-view.tsx] and the task sidebar
    ([handleDragStart], [handleDrop]).

    Modelling conventions.
    - A JavaScript [Date] is its time value: milliseconds since the epoch,
      an integer.  Invalid dates and the clipping of time values beyond
      +-8.64e15 ms are outside the model.
    - The local time zone is the platform's: [LocalTZA], the offset of local
      time from UTC at an instant and at a local time (ECMA-262), is a
      parameter.  It may change with the instant (daylight saving time);
      what a statement needs of the zone is a hypothesis of that statement.
    - [Array.prototype.sort] is the engine's: the sort is a parameter, and
      what the language promises of it is a hypothesis of the statements that
      need it.
    - [importance] and [estimatedTime] are integers (the priority rating and
      the minutes of the forms); fractional and NaN numbers are outside the
      model.
    - [new Date()] reads a clock.  The clock is an explicit argument: the
      reading taken while the [map] callback runs at a given index.
    - React state is passed explicitly: an operation that ends in
      [setTasks v] is a function from the current task list to [v]. *)

From Stdlib Require Import ZArith QArith Qround Lia List Permutation Sorted.
From stdpp Require Import base list sorting strings pretty.

Local Open Scope Z_scope.

(** ** Time values (ECMA-262, "Time Values and Time Range") *)

Module TimeValue.

Definition msPerSecond : Z := 1000.
Definition msPerMinute : Z := 60000.
Definition msPerHour : Z := 3600000.
Definition msPerDay : Z := 86400000.

Definition Day (t : Z) : Z := t / msPerDay.
Definition TimeWithinDay (t : Z) : Z := t mod msPerDay.

Definition DayFromYear (y : Z) : Z :=
  365 * (y - 1970) + (y - 1969) / 4 - (y - 1901) / 100 + (y - 1601) / 400.

Definition isLeapYear (y : Z) : bool :=
  (y mod 4 =? 0) && (negb (y mod 100 =? 0) || (y mod 400 =? 0)).

(** The year of the day [Day t]: the largest [y] with
    [DayFromYear y <= Day t].  The quotient by the mean year length is off
    by at most one, which the two tests repair. *)
Definition YearFromTime (t : Z) : Z :=
  let d := Day t in
  let y0 := 1970 + (d * 400) / 146097 in
  if d <? DayFromYear y0 then y0 - 1
  else if DayFromYear (y0 + 1) <=? d then y0 + 1
  else y0.

Definition InLeapYear (t : Z) : Z :=
  if isLeapYear (YearFromTime t) then 1 else 0.

Definition DayWithinYear (t : Z) : Z := Day t - DayFromYear (YearFromTime t).

(** Day number, within its year, of the first day of month [m] (0-11). *)
Definition monthStart (m leap : Z) : Z :=
  if m =? 0 then 0
  else if m =? 1 then 31
  else if m =? 2 then 59 + leap
  else if m =? 3 then 90 + leap
  else if m =? 4 then 120 + leap
  else if m =? 5 then 151 + leap
  else if m =? 6 then 181 + leap
  else if m =? 7 then 212 + leap
  else if m =? 8 then 243 + leap
  else if m =? 9 then 273 + leap
  else if m =? 10 then 304 + leap
  else 334 + leap.

Definition MonthFromTime (t : Z) : Z :=
  let d := DayWithinYear t in
  let leap := InLeapYear t in
  if d <? 31 then 0
  else if d <? 59 + leap then 1
  else if d <? 90 + leap then 2
  else if d <? 120 + leap then 3
  else if d <? 151 + leap then 4
  else if d <? 181 + leap then 5
  else if d <? 212 + leap then 6
  else if d <? 243 + leap then 7
  else if d <? 273 + leap then 8
  else if d <? 304 + leap then 9
  else if d <? 334 + leap then 10
  else 11.

Definition DateFromTime (t : Z) : Z :=
  DayWithinYear t - monthStart (MonthFromTime t) (InLeapYear t) + 1.

Definition HourFromTime (t : Z) : Z := (t / msPerHour) mod 24.
Definition MinFromTime (t : Z) : Z := (t / msPerMinute) mod 60.
Definition SecFromTime (t : Z) : Z := (t / msPerSecond) mod 60.
Definition msFromTime (t : Z) : Z := t mod msPerSecond.

Definition MakeTime (hour min sec ms : Z) : Z :=
  hour * msPerHour + min * msPerMinute + sec * msPerSecond + ms.

(** [MakeDay year month date]: the day number of the [date]-th day
    (1-based, any integer) counted from the first of the month. *)
Definition MakeDay (year month date : Z) : Z :=
  let ym := year + month / 12 in
  let mn := month mod 12 in
  DayFromYear ym + monthStart mn (if isLeapYear ym then 1 else 0) + date - 1.

Definition MakeDate (day time : Z) : Z := day * msPerDay + time.

End TimeValue.

Import TimeValue.

(** ** [Date] objects *)

(** A [Date] object holds one time value; [getTime] reads it. *)
Record Date : Set := mkDate { getTime : Z }.

(** ** Task records ([export type Task]) *)

(** Optional properties ([dueDate?], [category?], [aiSuggested?],
    [scheduledTime?]) are [option]s: [None] is an absent (or [undefined])
    property. *)
Record Task : Set := mkTask {
  id : string;
  title : string;
  description : string;
  importance : Z;
  estimatedTime : Z;
  dueDate : option Date;
  completed : bool;
  category : option string;
  aiSuggested : option bool;
  scheduledTime : option Date
}.

(** [{ ...task, scheduledTime: d }] *)
Definition with_scheduledTime (d : option Date) (task : Task) : Task :=
  {| id := id task; title := title task; description := description task;
     importance := importance task; estimatedTime := estimatedTime task;
     dueDate := dueDate task; completed := completed task;
     category := category task; aiSuggested := aiSuggested task;
     scheduledTime := d |}.

(** Truthiness of an optional object property: an object (every [Date],
    also one holding an odd time value) is truthy, [undefined] is falsy. *)
Definition truthy {A : Type} (o : option A) : bool :=
  match o with Some _ => true | None => false end.

(** ** [Math] and [Array.prototype.sort] *)

Definition Math_ceil (q : Q) : Z := Qceiling q.
Definition Math_floor (q : Q) : Z := Qfloor q.
Definition Math_max (a b : Z) : Z := Z.max a b.

(** [Array.prototype.sort] with a comparator is the engine's.  ECMA-262
    ([SortIndexedProperties]) promises that the result holds the elements of
    the array, and, when the comparator is a consistent comparator for them,
    that it is in the comparator's order with the elements that compare equal
    in the order they had; for any other comparator the order is
    implementation-defined.  So the sort is a parameter of [sortTasksByAI]
    below ([Array_sort]), and the algorithms here are sample engines:
    [stableSort], the insertion sort that serves as the reference for the
    order the language fixes; [mergeSort], a stable top-down merge sort; and
    [binaryInsertionSort], the sort by runs and binary insertion. *)
Section ArraySort.
Context {A : Type} (comparefn : A -> A -> Z).

Fixpoint sort_insert (x : A) (l : list A) : list A :=
  match l with
  | [] => [x]
  | y :: l' => if comparefn x y <=? 0 then x :: l else y :: sort_insert x l'
  end.

Fixpoint stableSort (l : list A) : list A :=
  match l with
  | [] => []
  | x :: l' => sort_insert x (stableSort l')
  end.

(** Merging two lists, the left one first on a tie. *)
Fixpoint merge (l1 : list A) : list A -> list A :=
  fix merge_into (l2 : list A) : list A :=
    match l1, l2 with
    | [], _ => l2
    | _, [] => l1
    | x :: l1', y :: l2' =>
        if comparefn x y <=? 0 then x :: merge l1' l2 else y :: merge_into l2'
    end.

(** Merge sort, halving the list; [fuel] bounds the depth of the halving,
    and the length of the list is enough. *)
Fixpoint mergeSort_upto (fuel : nat) (l : list A) : list A :=
  match fuel with
  | O => l
  | S fuel' =>
      match l with
      | [] | [_] => l
      | _ :: _ :: _ =>
          let middle := (length l / 2)%nat in
          merge (mergeSort_upto fuel' (take middle l))
                (mergeSort_upto fuel' (drop middle l))
      end
  end.

Definition mergeSort (l : list A) : list A := mergeSort_upto (length l) l.

(** The sort by runs and binary insertion, as engines use it on short
    arrays: the longest run at the head of the array (non-descending, or
    strictly descending and then reversed) is taken as sorted, and every
    later element is put into the sorted part at the place a binary search
    finds. *)
Fixpoint ascendingRun (previous : A) (l : list A) : list A * list A :=
  match l with
  | [] => ([], [])
  | current :: rest =>
      if comparefn current previous <? 0 then ([], l)
      else let (run, others) := ascendingRun current rest in (current :: run, others)
  end.

Fixpoint descendingRun (previous : A) (l : list A) : list A * list A :=
  match l with
  | [] => ([], [])
  | current :: rest =>
      if comparefn current previous <? 0
      then let (run, others) := descendingRun current rest in (current :: run, others)
      else ([], l)
  end.

Definition countAndMakeRun (l : list A) : list A * list A :=
  match l with
  | first :: second :: rest =>
      if comparefn second first <? 0
      then let (run, others) := descendingRun second rest in
           (rev (first :: second :: run), others)
      else let (run, others) := ascendingRun second rest in
           (first :: second :: run, others)
  | _ => (l, [])
  end.

Fixpoint binarySearch (fuel : nat) (pivot : A) (sorted : list A) (left right : nat)
  : nat :=
  match fuel with
  | O => left
  | S fuel' =>
      if (left <? right)%nat then
        let mid := (left + (right - left) / 2)%nat in
        match sorted !! mid with
        | Some element =>
            if comparefn pivot element <? 0
            then binarySearch fuel' pivot sorted left mid
            else binarySearch fuel' pivot sorted (S mid) right
        | None => left
        end
      else left
  end.

Definition binaryInsert (sorted : list A) (pivot : A) : list A :=
  let place := binarySearch (length sorted) pivot sorted 0 (length sorted) in
  take place sorted ++ pivot :: drop place sorted.

Definition binaryInsertionSort (l : list A) : list A :=
  let (run, others) := countAndMakeRun l in
  fold_left binaryInsert others run.
End ArraySort.

(** The comparator of [sortTasksByAI]: importance, highest first, then due
    date when both tasks have one. *)
Definition compareTasks (a b : Task) : Z :=
  if negb (importance b =? importance a) then importance b - importance a
  else match dueDate a, dueDate b with
       | Some da, Some db => getTime da - getTime db
       | _, _ => 0
       end.

(** [Math.max(1, Math.ceil((10 - task.importance) / 2))] *)
Definition daysBeforeDue (task : Task) : Z :=
  Math_max 1 (Math_ceil (inject_Z (10 - importance task) / 2)%Q).

(** [task.importance >= 8 ? 9 : task.importance >= 6 ? 13 : 15] *)
Definition slotHour (task : Task) : Z :=
  if 8 <=? importance task then 9
  else if 6 <=? importance task then 13
  else 15.

(** The platform's time zone, ECMA-262 [LocalTZA(t, isUTC)]: the offset of
    local time from UTC in milliseconds, at the instant [t] when [isUTC] is
    [true], and at the local time [t] when it is [false].  A local time the
    clock skips or shows twice is read with the offset before the
    transition. *)
Definition Zone : Type := Z -> bool -> Z.

(** The engine's [Array.prototype.sort] on task lists. *)
Definition Engine : Type := (Task -> Task -> Z) -> list Task -> list Task.

Section Platform.

Variable LocalTZA : Zone.
Variable Array_sort : Engine.

Definition LocalTime (t : Z) : Z := t + LocalTZA t true.
Definition UTC (t : Z) : Z := t - LocalTZA t false.

(** A year from 0 to 99 given to the [Date] constructor stands for
    1900 to 1999. *)
Definition MakeFullYear (year : Z) : Z :=
  if (0 <=? year) && (year <=? 99) then 1900 + year else year.

(** [new Date(year, monthIndex, day, hours, minutes)] *)
Definition Date_of (year month day hours minutes : Z) : Date :=
  mkDate (UTC (MakeDate (MakeDay (MakeFullYear year) month day)
                        (MakeTime hours minutes 0 0))).

Definition getDate (d : Date) : Z := DateFromTime (LocalTime (getTime d)).
Definition getHours (d : Date) : Z := HourFromTime (LocalTime (getTime d)).
Definition getMinutes (d : Date) : Z := MinFromTime (LocalTime (getTime d)).
Definition getSeconds (d : Date) : Z := SecFromTime (LocalTime (getTime d)).
Definition getMilliseconds (d : Date) : Z := msFromTime (LocalTime (getTime d)).

(** [d.setDate(dt)]: the date after the call ([d] is updated in place; in
    the code modelled here [d] is always a fresh local object). *)
Definition setDate (d : Date) (dt : Z) : Date :=
  let t := LocalTime (getTime d) in
  mkDate (UTC (MakeDate (MakeDay (YearFromTime t) (MonthFromTime t) dt)
                        (TimeWithinDay t))).

(** [d.setHours(hour, min, sec, ms)] *)
Definition setHours (d : Date) (hour min sec ms : Z) : Date :=
  let t := LocalTime (getTime d) in
  mkDate (UTC (MakeDate (Day t) (MakeTime hour min sec ms))).

(** The local calendar day of a date (what [format(d, "yyyy-MM-dd")]
    identifies) and the calendar slot the week view files a task under:
    [format(task.scheduledTime, "yyyy-MM-dd") === format(day, "yyyy-MM-dd")
     && task.scheduledTime.getHours() === hour]. *)
Definition localDay (d : Date) : Z := Day (LocalTime (getTime d)).
Definition slotOf (d : Date) : Z * Z := (localDay d, getHours d).

(** *** [sortTasksByAI] *)

(** [const sorted = [...tasks].sort(...)] *)
Definition sortedTasks (tasks : list Task) : list Task :=
  Array_sort compareTasks tasks.

(** The date the callback of [sorted.map((task, index) => ...)] computes
    for a task it schedules: the value of [targetDate] at the [return].
    [now index] is what [new Date()] returns while the callback runs at
    [index]. *)
Definition targetDate (now : nat -> Date) (index : nat) (task : Task) : Date :=
  let targetDate := now index in
  let targetDate :=
    match dueDate task with
    | Some due =>
        let targetDate := mkDate (getTime due) in
        setDate targetDate (getDate targetDate - daysBeforeDue task)
    | None =>
        setDate targetDate
          (getDate targetDate + Math_floor (inject_Z (Z.of_nat index) / 3)%Q)
    end in
  setHours targetDate (slotHour task) 0 0 0.

(** The callback itself. *)
Definition scheduleTask (now : nat -> Date) (index : nat) (task : Task) : Task :=
  if completed task || truthy (scheduledTime task) then task
  else with_scheduledTime (Some (targetDate now index task)) task.

Definition sortTasksByAI (now : nat -> Date) (tasks : list Task) : list Task :=
  imap (scheduleTask now) (sortedTasks tasks).

End Platform.

(** ** The task store: [addTask], [updateTask], [deleteTask] *)

(** Run-time values: what [JSON.parse] returns and what reaches
    [onUpdateTask] as its [id].  Numbers matter here only through their tag. *)
#[local] Set Warnings "-register-all".
Inductive JSValue : Set :=
| JSUndefined
| JSNull
| JSBoolean (b : bool)
| JSNumber (n : Z)
| JSString (s : string)
| JSArray (elements : list JSValue)
| JSObject (properties : list (string * JSValue)).

(** [s === v] for a string [s]. *)
Definition strict_equals (s : string) (v : JSValue) : bool :=
  match v with
  | JSString s' => String.eqb s s'
  | _ => false
  end.

(** [Partial<Task>]: every property may be absent ([None]).  A property
    that is optional in [Task] may also be present and hold [undefined]
    ([Some None]). *)
Record PartialTask : Set := mkPartial {
  p_id : option string;
  p_title : option string;
  p_description : option string;
  p_importance : option Z;
  p_estimatedTime : option Z;
  p_dueDate : option (option Date);
  p_completed : option bool;
  p_category : option (option string);
  p_aiSuggested : option (option bool);
  p_scheduledTime : option (option Date)
}.

Definition noUpdates : PartialTask :=
  mkPartial None None None None None None None None None None.

(** [{ ...task, ...updates }] *)
Definition spread (task : Task) (updates : PartialTask) : Task :=
  {| id := default (id task) (p_id updates);
     title := default (title task) (p_title updates);
     description := default (description task) (p_description updates);
     importance := default (importance task) (p_importance updates);
     estimatedTime := default (estimatedTime task) (p_estimatedTime updates);
     dueDate := default (dueDate task) (p_dueDate updates);
     completed := default (completed task) (p_completed updates);
     category := default (category task) (p_category updates);
     aiSuggested := default (aiSuggested task) (p_aiSuggested updates);
     scheduledTime := default (scheduledTime task) (p_scheduledTime updates) |}.

(** [Date.now().toString()]: the decimal text of the clock reading. *)
Definition Number_toString (n : Z) : string := pretty n.

(** [addTask].  [Date_now] is the reading of [Date.now()].  The argument is
    declared [Omit<Task, "id" | "completed">]; its [id] and [completed] stand
    for properties the object may carry beyond that type, and both are
    overwritten. *)
Definition addTask (Date_now : Z) (newTask : Task) (tasks : list Task) : list Task :=
  let task :=
    {| id := Number_toString Date_now;
       title := title newTask; description := description newTask;
       importance := importance newTask; estimatedTime := estimatedTime newTask;
       dueDate := dueDate newTask;
       completed := false;
       category := category newTask; aiSuggested := aiSuggested newTask;
       scheduledTime := scheduledTime newTask |} in
  tasks ++ [task].

(** [updateTask].  [id] is declared a string; the drop handler passes
    whatever the payload holds, so the model takes any value and compares
    with [===] as the code does. *)
Definition updateTask (id' : JSValue) (updates : PartialTask) (tasks : list Task)
  : list Task :=
  map (fun task => if strict_equals (id task) id' then spread task updates else task)
      tasks.

(** [deleteTask] *)
Definition deleteTask (id' : string) (tasks : list Task) : list Task :=
  List.filter (fun task => negb (String.eqb (id task) id')) tasks.

(** [onClick={() => onUpdateTask(task.id, { completed: !task.completed })}] *)
Definition toggleCompleted (task : Task) (tasks : list Task) : list Task :=
  updateTask (JSString (id task))
    (mkPartial None None None None None None (Some (negb (completed task)))
               None None None)
    tasks.

(** ** Drag and drop *)

(** [taskData.id]: [None] is the [TypeError] of a property read on [null]
    or [undefined]; a value without the property reads as [undefined]. *)
Fixpoint lookup_property (key : string) (properties : list (string * JSValue))
  : JSValue :=
  match properties with
  | [] => JSUndefined
  | (k, v) :: rest => if String.eqb k key then v else lookup_property key rest
  end.

Definition property_id (taskData : JSValue) : option JSValue :=
  match taskData with
  | JSUndefined | JSNull => None
  | JSObject properties => Some (lookup_property "id" properties)
  | JSBoolean _ | JSNumber _ | JSString _ | JSArray _ => Some JSUndefined
  end.

(** [{ scheduledTime }] *)
Definition scheduledTime_update (scheduledTime : Date) : PartialTask :=
  mkPartial None None None None None None None None None
            (Some (Some scheduledTime)).

(** [Array.from({ length: 14 }, (_, i) => i + 7)]: the hours of the week
    view's slots, 7 AM to 8 PM. *)
Definition hours : list Z := (fun i => Z.of_nat i + 7) <$> seq 0 14.

(** What [JSON.stringify] is given for a task: an object with the task's
    own properties, absent ones left out, a [Date] as the text its [toJSON]
    returns. *)
Definition optional_property {A : Type} (key : string) (toValue : A -> JSValue)
    (o : option A) : list (string * JSValue) :=
  match o with
  | Some v => [(key, toValue v)]
  | None => []
  end.

Definition Task_toJSON (toISOString : Date -> string) (task : Task) : JSValue :=
  JSObject
    ([("id", JSString (id task));
      ("title", JSString (title task));
      ("description", JSString (description task));
      ("importance", JSNumber (importance task));
      ("estimatedTime", JSNumber (estimatedTime task))]
     ++ optional_property "dueDate" (fun d => JSString (toISOString d)) (dueDate task)
     ++ [("completed", JSBoolean (completed task))]
     ++ optional_property "category" JSString (category task)
     ++ optional_property "aiSuggested" JSBoolean (aiSuggested task)
     ++ optional_property "scheduledTime" (fun d => JSString (toISOString d))
          (scheduledTime task)).

Section DragAndDrop.

Variable LocalTZA : Zone.

(** [JSON.stringify] and [Date.prototype.toISOString], the platform's. *)
Variable JSON_stringify : JSValue -> string.
Variable toISOString : Date -> string.

(** [handleDragStart(e, task)]: the text stored under
    ["application/json"]. *)
Definition handleDragStart (task : Task) : string :=
  JSON_stringify (Task_toJSON toISOString task).

(** [JSON.parse]: [None] is the [SyntaxError] it throws on text that is not
    JSON.  The parser is the platform's; the handlers are modelled for any
    parser. *)
Variable JSON_parse : string -> option JSValue.

(** The [id] read off the payload taken as a task record
    ([JSON.parse(...) as Task], then [taskData.id]): [None] when the payload
    does not parse, that is when either step throws. *)
Definition parsed_id (payload : string) : option JSValue :=
  JSON_parse payload ≫= property_id.

(** [handleDrop(e, date, hour)], with [payload] what
    [e.dataTransfer.getData("application/json")] returns: the call of
    [onUpdateTask] the handler issues, [None] when an exception sent it to
    the [catch] block before the call. *)
Definition handleDrop (payload : string) (date : Date) (hour : option Z)
  : option (JSValue * PartialTask) :=
  match JSON_parse payload with
  | None => None
  | Some taskData =>
      let scheduledTime := mkDate (getTime date) in
      let scheduledTime :=
        match hour with
        | Some h => setHours LocalTZA scheduledTime h 0 0 0
        | None => scheduledTime
        end in
      match property_id taskData with
      | None => None
      | Some id' => Some (id', scheduledTime_update scheduledTime)
      end
  end.

(** The task list after the drop, [onUpdateTask] being [updateTask]. *)
Definition dropTask (payload : string) (date : Date) (hour : option Z)
    (tasks : list Task) : list Task :=
  match handleDrop payload date hour with
  | None => tasks
  | Some (id', updates) => updateTask id' updates tasks
  end.

End DragAndDrop.

(** ** Vocabulary of the statements *)

(** [x] stands before [y] in [l]. *)
Definition precedes {A : Type} (l : list A) (x y : A) : Prop :=
  exists i j : nat, (i < j)%nat /\ l !! i = Some x /\ l !! j = Some y.

(** The comparator does not ask for [b] before [a]. *)
Definition ordered {A : Type} (comparefn : A -> A -> Z) (a b : A) : Prop :=
  comparefn a b <= 0.

(** The order the tasks are said to be sorted in: a rearrangement of
    [tasks], by descending importance, ties broken by earlier due date, and
    tasks of equal importance of which either lacks a due date in the order
    they had in [tasks]. *)
Definition claimed_order (tasks sorted : list Task) : Prop :=
  sorted ≡ₚ tasks
  /\ (forall a b, precedes sorted a b -> importance b <= importance a)
  /\ (forall a b da db,
        precedes sorted a b -> importance a = importance b ->
        dueDate a = Some da -> dueDate b = Some db -> getTime da <= getTime db)
  /\ (forall a b,
        precedes tasks a b -> importance a = importance b ->
        dueDate a = None \/ dueDate b = None -> precedes sorted a b).

(** *** What the language promises of the engine's sort *)

(** ECMA-262, "consistent comparator" for the elements of [l]: the signs of
    the comparator's answers split the elements into classes that are
    totally ordered. *)
Definition consistent {A : Type} (comparefn : A -> A -> Z) (l : list A) : Prop :=
  forall a b c : A, a ∈ l -> b ∈ l -> c ∈ l ->
    comparefn a a = 0
    /\ (comparefn a b = 0 -> comparefn b a = 0)
    /\ (comparefn a b = 0 -> comparefn b c = 0 -> comparefn a c = 0)
    /\ (comparefn a b < 0 -> comparefn b c < 0 -> comparefn a c < 0)
    /\ (0 < comparefn a b -> 0 < comparefn b c -> 0 < comparefn a c).

(** The result holds the elements of the array, whatever the comparator. *)
Definition permutes {A : Type} (sort : (A -> A -> Z) -> list A -> list A) : Prop :=
  forall (comparefn : A -> A -> Z) (l : list A), sort comparefn l ≡ₚ l.

(** With a consistent comparator the result is in the comparator's order,
    elements that compare equal in the order they had: the list
    [stableSort] returns. *)
Definition sortsConsistent {A : Type} (sort : (A -> A -> Z) -> list A -> list A) : Prop :=
  forall (comparefn : A -> A -> Z) (l : list A),
    consistent comparefn l -> sort comparefn l = stableSort comparefn l.

(** The comparator never contradicts the key on the elements of [l]: of
    two elements with different keys it always wants the one with the
    smaller key first. *)
Definition keyed {A : Type} (key : A -> Z) (comparefn : A -> A -> Z) (l : list A) : Prop :=
  forall a b : A, a ∈ l -> b ∈ l -> key a < key b -> comparefn a b < 0 /\ 0 < comparefn b a.

(** [byKey key l]: the keys never decrease along [l]. *)
Definition byKey {A : Type} (key : A -> Z) : list A -> Prop :=
  StronglySorted (fun a b => key a <= key b).

(** Beyond the language: a key the comparator never contradicts is in order
    in the result, also when the comparator is not consistent among elements
    of one key.  The three sample engines are such. *)
Definition sortsByKey {A : Type} (sort : (A -> A -> Z) -> list A -> list A) : Prop :=
  forall (key : A -> Z) (comparefn : A -> A -> Z) (l : list A),
    keyed key comparefn l ->
    forall (i j : nat) (a b : A),
      (i <= j)%nat -> sort comparefn l !! i = Some a -> sort comparefn l !! j = Some b ->
      key a <= key b.

(** Within every importance level either every task has a due date or none
    has. *)
Definition unmixed (tasks : list Task) : Prop :=
  forall a b : Task,
    a ∈ tasks -> b ∈ tasks -> importance a = importance b ->
    dueDate a = None -> dueDate b = None.

(** *** What a statement may need of the zone *)

(** The clock of the zone shows the local time [t], and [t] read as an
    instant shows as [t] again: [t] is not in a gap the clock skips. *)
Definition regular (tz : Zone) (t : Z) : Prop := LocalTime tz (UTC tz t) = t.

(** The clock shows [hour]:00 on every day. *)
Definition showsHour (tz : Zone) (hour : Z) : Prop :=
  forall day : Z, regular tz (MakeDate day (MakeTime hour 0 0 0)).

(** The hours [sortTasksByAI] schedules at. *)
Definition showsSlotHours (tz : Zone) : Prop :=
  showsHour tz 9 /\ showsHour tz 13 /\ showsHour tz 15.

(** No gap of the clock runs over midnight: a local time read as an instant
    falls on the local day it names. *)
Definition keepsDays (tz : Zone) : Prop :=
  forall t : Z, Day (LocalTime tz (UTC tz t)) = Day t.

(** The offsets of the zone at any two instants differ by less than
    [bound]. *)
Definition offsetSpread (tz : Zone) (bound : Z) : Prop :=
  forall t t' : Z, tz t true - tz t' true < bound.

(** [task'] is [task] in every field but [scheduledTime]. *)
Definition same_but_scheduledTime (task task' : Task) : Prop :=
  id task' = id task /\ title task' = title task
  /\ description task' = description task
  /\ importance task' = importance task
  /\ estimatedTime task' = estimatedTime task
  /\ dueDate task' = dueDate task /\ completed task' = completed task
  /\ category task' = category task /\ aiSuggested task' = aiSuggested task.

(** ** Sample data *)

(** The tasks the page starts with ([useState<Task[]>([...])]). *)
Definition initialTasks (tz : Zone) : list Task :=
  [ {| id := "1"; title := "Complete project proposal";
       description := "Finish the Q1 project proposal for the client meeting";
       importance := 9; estimatedTime := 120;
       dueDate := Some (Date_of tz 2025 0 24 0 0);
       completed := false; category := Some "Work"; aiSuggested := None;
       scheduledTime := Some (Date_of tz 2025 0 22 9 0) |};
    {| id := "2"; title := "Review pull requests";
       description := "Review and merge pending PRs from the team";
       importance := 7; estimatedTime := 45;
       dueDate := None;
       completed := false; category := Some "Work"; aiSuggested := None;
       scheduledTime := Some (Date_of tz 2025 0 22 14 0) |};
    {| id := "3"; title := "Gym workout";
       description := "Leg day at the gym";
       importance := 5; estimatedTime := 60;
       dueDate := None;
       completed := false; category := Some "Personal"; aiSuggested := None;
       scheduledTime := Some (Date_of tz 2025 0 22 18 0) |} ].

(** A task that is neither completed nor scheduled. *)
Definition openTask (id' : string) (importance' : Z) (dueDate' : option Date) : Task :=
  {| id := id'; title := "task"; description := "";
     importance := importance'; estimatedTime := 30;
     dueDate := dueDate'; completed := false;
     category := None; aiSuggested := None; scheduledTime := None |}.

(** A clock that stands still at 22 January 2025, 08:30 local time. *)
Definition morning (tz : Zone) : nat -> Date := fun _ => Date_of tz 2025 0 22 8 30.

(** The same day, 17:45. *)
Definition evening (tz : Zone) : nat -> Date := fun _ => Date_of tz 2025 0 22 17 45.

(** A zone with a fixed offset. *)
Definition fixedZone (offset : Z) : Zone := fun _ _ => offset.

(** The zone of the samples, with the rules of New York in 2025: five hours
    behind UTC, four from 9 March, 2:00 (7:00 UTC), when the clock skips to
    3:00, until 2 November, 2:00 (6:00 UTC), when it goes back to 1:00.  A
    local time between 2:00 and 3:00 on 9 March, which the clock skips, and
    one between 1:00 and 2:00 on 2 November, which it shows twice, are read
    with the offset before the transition. *)
Definition zone : Zone :=
  fun t isUTC =>
    if isUTC then
      if t <? 1741503600000 then -18000000
      else if t <? 1762063200000 then -14400000
      else -18000000
    else
      if t <? 1741489200000 then -18000000
      else if t <? 1762048800000 then -14400000
      else -18000000.

(** A backlog of five tasks: one completed, two of the highest tier without
    a due date, one due on 24 January 2025, one of the lowest tier without a
    due date. *)
Definition taskDone : Task :=
  {| id := "e"; title := "done"; description := "";
     importance := 10; estimatedTime := 15;
     dueDate := None; completed := true;
     category := None; aiSuggested := None; scheduledTime := None |}.
Definition taskA : Task := openTask "a" 9 None.
Definition taskB : Task := openTask "b" 9 None.
Definition taskC : Task := openTask "c" 3 None.
Definition taskD : Task := openTask "d" 7 (Some (Date_of zone 2025 0 24 0 0)).

Definition backlog : list Task := [taskC; taskA; taskD; taskB; taskDone].

(** Three tasks of one importance; the one in the middle has no due date,
    the first is due after the last. *)
Definition taskX : Task := openTask "x" 5 (Some (Date_of zone 2025 0 29 0 0)).
Definition taskY : Task := openTask "y" 5 None.
Definition taskZ : Task := openTask "z" 5 (Some (Date_of zone 2025 0 25 0 0)).

Definition mixedLevel : list Task := [taskX; taskY; taskZ].

(** Four tasks of one importance, the third without a due date, on which
    engines differ. *)
Definition levelFour : list Task :=
  [ openTask "t0" 5 (Some (Date_of zone 2025 0 29 0 0));
    openTask "t1" 5 (Some (Date_of zone 2025 0 25 0 0));
    openTask "t2" 5 None;
    openTask "t3" 5 (Some (Date_of zone 2025 0 25 0 0)) ].

(** Six tasks of one importance, three of them without a due date. *)
Definition levelSix : list Task :=
  [ openTask "s0" 5 (Some (Date_of zone 2025 0 26 0 0));
    openTask "s1" 5 None;
    openTask "s2" 5 (Some (Date_of zone 2025 0 25 0 0));
    openTask "s3" 5 (Some (Date_of zone 2025 0 25 0 0));
    openTask "s4" 5 None;
    openTask "s5" 5 None ].

(** A task of importance 1 due on 10 March 2025, the day after the clock of
    the zone is put forward. *)
Definition taskSpring : Task := openTask "spring" 1 (Some (Date_of zone 2025 2 10 0 0)).

(** A parser that knows three texts: an object holding the id 1 and nothing
    else, [null], and a number. *)
Definition quoted (s : string) : string :=
  String (Ascii.ascii_of_nat 34) (s +:+ String (Ascii.ascii_of_nat 34) EmptyString).

Definition textIdOnly : string := "{" +:+ quoted "id" +:+ ":" +:+ quoted "1" +:+ "}".

Definition sampleParse (text : string) : option JSValue :=
  if String.eqb text textIdOnly then Some (JSObject [("id", JSString "1")])
  else if String.eqb text "null" then Some JSNull
  else if String.eqb text "42" then Some (JSNumber 42)
  else None.

(** * The rest of the code *)

(** ** The callbacks of [TaskCalendar] as actions on the task list *)

(** What the component hands to its children: [onAddTask], [onUpdateTask],
    [onDeleteTask], [onSortTasks], and the drop on a slot of the week view
    ([onDrop], which ends in [onUpdateTask]). *)
Inductive Action : Type :=
| Add (Date_now : Z) (newTask : Task)
| Update (id' : JSValue) (updates : PartialTask)
| Delete (id' : string)
| Sort (now : nat -> Date)
| DropOn (payload : string) (date : Date) (hour : option Z).

Definition perform (tz : Zone) (sort : Engine) (JSON_parse : string -> option JSValue)
    (tasks : list Task) (action : Action) : list Task :=
  match action with
  | Add Date_now newTask => addTask Date_now newTask tasks
  | Update id' updates => updateTask id' updates tasks
  | Delete id' => deleteTask id' tasks
  | Sort now => sortTasksByAI tz sort now tasks
  | DropOn payload date hour => dropTask tz JSON_parse payload date hour tasks
  end.

(** A session: the actions one after the other, each on the list the one
    before left. *)
Definition run (tz : Zone) (sort : Engine) (JSON_parse : string -> option JSValue)
    (tasks : list Task) (actions : list Action) : list Task :=
  fold_left (perform tz sort JSON_parse) actions tasks.

(** The action cannot make two ids equal: a task is added at a clock
    reading whose text is no id of the list, an update holds no [id]. *)
Definition keeps_ids_apart (tasks : list Task) (action : Action) : Prop :=
  match action with
  | Add Date_now _ => Number_toString Date_now ∉ id <$> tasks
  | Update _ updates => p_id updates = None
  | Delete _ | Sort _ | DropOn _ _ _ => True
  end.

Fixpoint session_keeps_ids_apart (tz : Zone) (sort : Engine)
    (JSON_parse : string -> option JSValue)
    (tasks : list Task) (actions : list Action) : Prop :=
  match actions with
  | [] => True
  | action :: rest =>
      keeps_ids_apart tasks action
      /\ session_keeps_ids_apart tz sort JSON_parse
           (perform tz sort JSON_parse tasks action) rest
  end.

(** [{ ...first, ...second }] for two updates: the second wins where both
    hold a property. *)
Definition later {A : Type} (first second : option A) : option A :=
  match second with
  | Some v => Some v
  | None => first
  end.

Definition merge_updates (first second : PartialTask) : PartialTask :=
  {| p_id := later (p_id first) (p_id second);
     p_title := later (p_title first) (p_title second);
     p_description := later (p_description first) (p_description second);
     p_importance := later (p_importance first) (p_importance second);
     p_estimatedTime := later (p_estimatedTime first) (p_estimatedTime second);
     p_dueDate := later (p_dueDate first) (p_dueDate second);
     p_completed := later (p_completed first) (p_completed second);
     p_category := later (p_category first) (p_category second);
     p_aiSuggested := later (p_aiSuggested first) (p_aiSuggested second);
     p_scheduledTime := later (p_scheduledTime first) (p_scheduledTime second) |}.

(** [{ completed: !task.completed }], and the task as it is after the
    click. *)
Definition completed_update (task : Task) : PartialTask :=
  mkPartial None None None None None None (Some (negb (completed task)))
            None None None.

Definition clicked (task : Task) : Task := spread task (completed_update task).

(** ** The week view ([CalendarView]) *)

(** ECMA-262 [WeekDay]: 0 is Sunday. *)
Definition WeekDay (t : Z) : Z := (Day t + 4) mod 7.

Definition getDay (tz : Zone) (d : Date) : Z := WeekDay (LocalTime tz (getTime d)).
Definition getFullYear (tz : Zone) (d : Date) : Z := YearFromTime (LocalTime tz (getTime d)).
Definition getMonth (tz : Zone) (d : Date) : Z := MonthFromTime (LocalTime tz (getTime d)).

(** date-fns [startOfWeek(date, { weekStartsOn })]: a copy of [date] moved
    back to the last [weekStartsOn] day, at local midnight. *)
Definition startOfWeek (tz : Zone) (date : Date) (weekStartsOn : Z) : Date :=
  let _date := mkDate (getTime date) in
  let day := getDay tz _date in
  let diff := (if day <? weekStartsOn then 7 else 0) + day - weekStartsOn in
  let _date := setDate tz _date (getDate tz _date - diff) in
  setHours tz _date 0 0 0 0.

(** date-fns [addDays(date, amount)] *)
Definition addDays (tz : Zone) (date : Date) (amount : Z) : Date :=
  let _date := mkDate (getTime date) in
  if amount =? 0 then _date
  else setDate tz _date (getDate tz _date + amount).

(** date-fns [format(date, "yyyy-MM-dd")], as the three numbers the text
    holds: the year of the era (1 for the year 0, which is 1 BC), the month
    from 1 and the day of the month.  The text pads them with zeros to four,
    two and two digits and joins them with dashes, so two texts are equal
    exactly when the numbers are. *)
Definition format_yyyy_MM_dd (tz : Zone) (date : Date) : Z * Z * Z :=
  let signedYear := getFullYear tz date in
  let year := if 0 <? signedYear then signedYear else 1 - signedYear in
  (year, getMonth tz date + 1, getDate tz date).

(** [const weekStart = startOfWeek(today, { weekStartsOn: 0 })] and
    [Array.from({ length: 7 }, (_, i) => addDays(weekStart, i))]; [today] is
    the [new Date()] of the render. *)
Definition weekDays (tz : Zone) (today : Date) : list Date :=
  (fun i => addDays tz (startOfWeek tz today 0) (Z.of_nat i)) <$> seq 0 7.

(** [slotId]: the text of the day, a dash and the hour; as the pair of
    both. *)
Definition slotId (tz : Zone) (day : Date) (hour : Z) : (Z * Z * Z) * Z :=
  (format_yyyy_MM_dd tz day, hour).

(** [hourTasks]: the tasks a cell of the week view shows. *)
Definition hourTasks (tz : Zone) (tasks : list Task) (day : Date) (hour : Z) : list Task :=
  List.filter
    (fun task =>
       match scheduledTime task with
       | None => false
       | Some scheduledTime' =>
           bool_decide (format_yyyy_MM_dd tz scheduledTime' = format_yyyy_MM_dd tz day)
           && (getHours tz scheduledTime' =? hour)
       end)
    tasks.

(** The state of the view: the tasks it is given and the slot under the
    pointer. *)
Record ViewState : Type := mkView {
  viewTasks : list Task;
  dragOverSlot : option ((Z * Z * Z) * Z)
}.

Inductive DragEvent : Type :=
| DragOver (slot : (Z * Z * Z) * Z)
| DragLeave
| Drop (payload : string) (date : Date) (hour : option Z).

(** [handleDragOver], [handleDragLeave] and [handleDrop] on that state;
    [handleDrop] clears the slot before it reads the payload. *)
Definition dragStep (tz : Zone) (JSON_parse : string -> option JSValue)
    (view : ViewState) (event : DragEvent) : ViewState :=
  match event with
  | DragOver slot => mkView (viewTasks view) (Some slot)
  | DragLeave => mkView (viewTasks view) None
  | Drop payload date hour =>
      mkView (dropTask tz JSON_parse payload date hour (viewTasks view)) None
  end.

Definition dragRun (tz : Zone) (JSON_parse : string -> option JSValue)
    (view : ViewState) (events : list DragEvent) : ViewState :=
  fold_left (dragStep tz JSON_parse) events view.

(** [getImportanceColor] of the week view and of the sidebar. *)
Definition getImportanceColor (importance' : Z) : string :=
  if 8 <=? importance' then "border-l-destructive bg-destructive/5"
  else if 6 <=? importance' then "border-l-warning bg-warning/5"
  else if 4 <=? importance' then "border-l-primary bg-primary/5"
  else "border-l-muted-foreground bg-muted/30".

Definition getImportanceColor_sidebar (importance' : Z) : string :=
  if 8 <=? importance' then "bg-destructive text-destructive-foreground"
  else if 6 <=? importance' then "bg-warning text-foreground"
  else if 4 <=? importance' then "bg-primary text-primary-foreground"
  else "bg-muted text-muted-foreground".

(** The year of the date is 1 or later. *)
Definition commonEra (tz : Zone) (d : Date) : Prop := 0 < getFullYear tz d.

(** The week view of [today] shows the task in one of its cells. *)
Definition shownInWeek (tz : Zone) (today : Date) (tasks : list Task) (task : Task) : Prop :=
  exists (a b : nat) (day : Date) (hour : Z),
    weekDays tz today !! a = Some day /\ hours !! b = Some hour
    /\ task ∈ hourTasks tz tasks day hour.

(** ** The animated background *)

(** The numbers of the canvas are floating-point numbers.  The model takes
    them as any type with an order test, an addition and a negation, and
    assumes of them only what each statement names: nothing about how the
    addition rounds. *)
Section Dots.

Context {Num : Type} (leb : Num -> Num -> bool) (zero : Num)
        (add : Num -> Num -> Num) (neg : Num -> Num).

Record Dot : Type := mkDot { x : Num; y : Num; vx : Num; vy : Num }.

(** [a < b], [Math.min] and [Math.max] *)
Definition ltb (a b : Num) : bool := negb (leb b a).
Definition Math_min (a b : Num) : Num := if leb a b then a else b.
Definition Math_maximum (a b : Num) : Num := if leb a b then b else a.

(** The body of [dots.forEach((dot, i) => ...)] up to the drawing: the dot
    after the frame on a canvas [width] by [height]. *)
Definition moveDot (width height : Num) (dot : Dot) : Dot :=
  let x1 := add (x dot) (vx dot) in
  let y1 := add (y dot) (vy dot) in
  let vx1 := if ltb x1 zero || ltb width x1 then neg (vx dot) else vx dot in
  let vy1 := if ltb y1 zero || ltb height y1 then neg (vy dot) else vy dot in
  let x2 := Math_maximum zero (Math_min width x1) in
  let y2 := Math_maximum zero (Math_min height y1) in
  mkDot x2 y2 vx1 vy1.

(** One call of [animate]: every dot moves once. *)
Definition animate (width height : Num) (dots : list Dot) : list Dot :=
  map (moveDot width height) dots.

(** The frames one after the other; [sizes] holds the size of the canvas at
    each frame (a resize changes it between frames). *)
Definition animation (sizes : list (Num * Num)) (dots : list Dot) : list Dot :=
  fold_left (fun dots size => animate (fst size) (snd size) dots) sizes dots.

End Dots.

(** ** More sample data *)

(** Two dots on integer coordinates: one about to leave the canvas on the
    left, one off the canvas after a resize. *)
Definition sampleDots : list (@Dot Z) :=
  [mkDot 5 5 (-10) 3; mkDot 400 20 2 (-1)].

Definition sampleSizes : list (Z * Z) := [(300, 200); (100, 50)].

(** A writer that writes the id of an object and nothing else; with
    [sampleParse] it reads back the id 1. *)
Definition sampleStringify (v : JSValue) : string :=
  match property_id v with
  | Some (JSString s) => "{" +:+ quoted "id" +:+ ":" +:+ quoted s +:+ "}"
  | _ => "null"
  end.

Definition sampleISO (d : Date) : string := Number_toString (getTime d).

(** A task due the day after the clock of [morning], of the lowest
    importance. *)
Definition taskLate : Task := openTask "late" 1 (Some (Date_of zone 2025 0 23 0 0)).

(** A session on the tasks the page starts with: a task is added, the task
    with id 1 is dropped on a slot, the list is sorted, the task with id 2 is
    deleted and the task with id 3 is marked completed. *)
Definition sampleSession : list Action :=
  [ Add 1737552600000 taskA;
    DropOn textIdOnly (Date_of zone 2025 0 26 0 0) (Some 10);
    Sort (morning zone);
    Delete "2";
    Update (JSString "3")
      (mkPartial None None None None None None (Some true) None None None) ].

(** 22 January 2025 is a Wednesday; its week starts on Sunday the 19th. *)
Definition wednesday : Date := Date_of zone 2025 0 22 8 30.

(** The task [a] placed on Wednesday at 18, beside an unscheduled task; and
    a task with the id 1, as [sampleParse] reads it back. *)
Definition taskPlaced : Task :=
  with_scheduledTime (Some (Date_of zone 2025 0 22 18 0)) taskA.

Definition taskOne : Task := openTask "1" 9 None.

(** * Properties *)

(** ** Time values *)

Lemma MonthFromTime_range (t : Z) : 0 <= MonthFromTime t <= 11.
Proof.
  unfold MonthFromTime.
  repeat match goal with |- context [if ?b then _ else _] => destruct b end; lia.
Qed.

(** A year has 365 days, 366 when it is a leap year. *)
Lemma DayFromYear_succ (y : Z) :
  DayFromYear (y + 1) - DayFromYear y = if isLeapYear y then 366 else 365.
Proof.
  unfold DayFromYear, isLeapYear.
  destruct (y mod 4 =? 0) eqn:E4; destruct (y mod 100 =? 0) eqn:E100;
    destruct (y mod 400 =? 0) eqn:E400; cbn;
    rewrite ?Z.eqb_eq, ?Z.eqb_neq in *;
    Z.div_mod_to_equations; lia.
Qed.

(** [YearFromTime t] is the year the day of [t] falls in: the largest year
    that starts on or before that day. *)
Lemma YearFromTime_spec (t : Z) :
  DayFromYear (YearFromTime t) <= Day t < DayFromYear (YearFromTime t + 1).
Proof.
  unfold YearFromTime.
  set (d := Day t). clearbody d.
  set (y0 := 1970 + d * 400 / 146097).
  assert (H0 : DayFromYear (y0 - 1) <= d < DayFromYear (y0 + 2)).
  { subst y0. unfold DayFromYear. Z.div_mod_to_equations. lia. }
  destruct (d <? DayFromYear y0) eqn:E1.
  - apply Z.ltb_lt in E1. replace (y0 - 1 + 1) with y0 by lia. lia.
  - apply Z.ltb_ge in E1.
    destruct (DayFromYear (y0 + 1) <=? d) eqn:E2.
    + apply Z.leb_le in E2. replace (y0 + 1 + 1) with (y0 + 2) by lia. lia.
    + apply Z.leb_gt in E2. lia.
Qed.

Lemma DayWithinYear_range (t : Z) : 0 <= DayWithinYear t < 365 + InLeapYear t.
Proof.
  unfold DayWithinYear, InLeapYear.
  pose proof (YearFromTime_spec t) as H.
  pose proof (DayFromYear_succ (YearFromTime t)) as Hy.
  destruct (isLeapYear (YearFromTime t)); lia.
Qed.

(** The day of the month is between 1 and 31. *)
Lemma DateFromTime_range (t : Z) : 1 <= DateFromTime t <= 31.
Proof.
  pose proof (DayWithinYear_range t) as H.
  unfold DateFromTime, MonthFromTime, monthStart.
  assert (Hl : InLeapYear t = 0 \/ InLeapYear t = 1)
    by (unfold InLeapYear; destruct (isLeapYear _); auto).
  repeat match goal with
         | |- context [if ?a <? ?b then _ else _] =>
             destruct (Z.ltb_spec a b)
         end; cbn; lia.
Qed.

(** A day of the month counted from the date of [t] lands that many days
    from the day of [t], whatever the month and the year are. *)
Lemma MakeDay_DateFromTime (t k : Z) :
  MakeDay (YearFromTime t) (MonthFromTime t) (DateFromTime t + k) = Day t + k.
Proof.
  pose proof (MonthFromTime_range t) as Hm.
  unfold MakeDay, DateFromTime, DayWithinYear, InLeapYear.
  rewrite (Z.div_small (MonthFromTime t) 12), (Z.mod_small (MonthFromTime t) 12) by lia.
  rewrite Z.add_0_r. lia.
Qed.

Lemma MakeDate_Day (t k : Z) :
  MakeDate (Day t + k) (TimeWithinDay t) = t + k * msPerDay.
Proof.
  unfold MakeDate, Day, TimeWithinDay.
  pose proof (Z.div_mod t msPerDay) as H. unfold msPerDay in *. lia.
Qed.

Lemma Day_MakeDate (day time : Z) :
  0 <= time < msPerDay -> Day (MakeDate day time) = day.
Proof.
  intros Ht. unfold Day, MakeDate.
  rewrite Z.add_comm, Z.div_add by (unfold msPerDay; lia).
  rewrite Z.div_small by exact Ht. lia.
Qed.

Lemma MakeTime_hour_range (h : Z) :
  0 <= h < 24 -> 0 <= MakeTime h 0 0 0 < msPerDay.
Proof. unfold MakeTime, msPerHour, msPerMinute, msPerSecond, msPerDay. lia. Qed.

Lemma HourFromTime_MakeDate (day h : Z) :
  0 <= h < 24 -> HourFromTime (MakeDate day (MakeTime h 0 0 0)) = h.
Proof.
  intros Hh. unfold HourFromTime, MakeDate, MakeTime.
  unfold msPerDay, msPerHour, msPerMinute, msPerSecond.
  replace (day * 86400000 + (h * 3600000 + 0 * 60000 + 0 * 1000 + 0))
    with ((day * 24 + h) * 3600000) by lia.
  rewrite Z.div_mul by lia.
  rewrite Z.add_comm, Z.mod_add by lia.
  apply Z.mod_small. lia.
Qed.

Lemma TimeWithinDay_MakeDate (day h : Z) :
  0 <= h < 24 -> TimeWithinDay (MakeDate day (MakeTime h 0 0 0)) = h * msPerHour.
Proof.
  intros Hh. unfold TimeWithinDay, MakeDate.
  rewrite Z.add_comm, Z.mod_add by (unfold msPerDay; lia).
  rewrite Z.mod_small by (apply MakeTime_hour_range; exact Hh).
  unfold MakeTime. lia.
Qed.

(** A whole number of hours has no minutes, seconds or milliseconds. *)
Lemma whole_hour_parts (day h : Z) :
  let t := MakeDate day (MakeTime h 0 0 0) in
  MinFromTime t = 0 /\ SecFromTime t = 0 /\ msFromTime t = 0.
Proof.
  unfold MinFromTime, SecFromTime, msFromTime, MakeDate, MakeTime.
  unfold msPerDay, msPerHour, msPerMinute, msPerSecond.
  repeat split.
  - replace (day * 86400000 + (h * 3600000 + 0 * 60000 + 0 * 1000 + 0))
      with ((day * 1440 + h * 60) * 60000) by lia.
    rewrite Z.div_mul by lia.
    replace (day * 1440 + h * 60) with ((day * 24 + h) * 60) by lia.
    apply Z.mod_mul. lia.
  - replace (day * 86400000 + (h * 3600000 + 0 * 60000 + 0 * 1000 + 0))
      with ((day * 86400 + h * 3600) * 1000) by lia.
    rewrite Z.div_mul by lia.
    replace (day * 86400 + h * 3600) with ((day * 1440 + h * 60) * 60) by lia.
    apply Z.mod_mul. lia.
  - replace (day * 86400000 + (h * 3600000 + 0 * 60000 + 0 * 1000 + 0))
      with ((day * 86400 + h * 3600) * 1000) by lia.
    apply Z.mod_mul. lia.
Qed.

Lemma TimeWithinDay_range (t : Z) : 0 <= TimeWithinDay t < msPerDay.
Proof. unfold TimeWithinDay. apply Z.mod_pos_bound. unfold msPerDay. lia. Qed.

(** ** Dates in the local zone *)

(** [d.setDate(d.getDate() + k)] asks the platform for the local time of
    [d], [k] days on. *)
Lemma getTime_setDate (tz : Zone) (d : Date) (k : Z) :
  getTime (setDate tz d (getDate tz d + k))
  = UTC tz (MakeDate (localDay tz d + k) (TimeWithinDay (LocalTime tz (getTime d)))).
Proof.
  unfold setDate, getDate, localDay. cbn [getTime].
  rewrite MakeDay_DateFromTime. reflexivity.
Qed.

Lemma localDay_setDate (tz : Zone) (d : Date) (k : Z) :
  keepsDays tz -> localDay tz (setDate tz d (getDate tz d + k)) = localDay tz d + k.
Proof.
  intros Hdays. unfold localDay at 1. rewrite getTime_setDate, Hdays.
  apply Day_MakeDate, TimeWithinDay_range.
Qed.

(** [d.setHours(h, 0, 0, 0)] asks for [h]:00 on the local day of [d]. *)
Lemma getTime_setHours (tz : Zone) (d : Date) (h : Z) :
  getTime (setHours tz d h 0 0 0) = UTC tz (MakeDate (localDay tz d) (MakeTime h 0 0 0)).
Proof. reflexivity. Qed.

Lemma localDay_setHours (tz : Zone) (d : Date) (h : Z) :
  keepsDays tz -> 0 <= h < 24 -> localDay tz (setHours tz d h 0 0 0) = localDay tz d.
Proof.
  intros Hdays Hh. unfold localDay at 1. rewrite getTime_setHours, Hdays.
  apply Day_MakeDate, MakeTime_hour_range, Hh.
Qed.

Lemma LocalTime_setHours (tz : Zone) (d : Date) (h : Z) :
  regular tz (MakeDate (localDay tz d) (MakeTime h 0 0 0)) ->
  LocalTime tz (getTime (setHours tz d h 0 0 0))
  = MakeDate (localDay tz d) (MakeTime h 0 0 0).
Proof. intros H. rewrite getTime_setHours. exact H. Qed.

(** What a date reads when its local time is [h]:00 on the day [day]. *)
Lemma whole_hour_date (tz : Zone) (d : Date) (day h : Z) :
  0 <= h < 24 ->
  LocalTime tz (getTime d) = MakeDate day (MakeTime h 0 0 0) ->
  localDay tz d = day /\ getHours tz d = h /\ getMinutes tz d = 0
  /\ getSeconds tz d = 0 /\ getMilliseconds tz d = 0.
Proof.
  intros Hh E. unfold localDay, getHours, getMinutes, getSeconds, getMilliseconds.
  rewrite E. split; [apply Day_MakeDate, MakeTime_hour_range, Hh|].
  split; [apply HourFromTime_MakeDate, Hh|]. apply whole_hour_parts.
Qed.

(** The instant of a date lies in its local day. *)
Lemma localDay_bounds (tz : Zone) (d : Date) :
  localDay tz d * msPerDay <= LocalTime tz (getTime d) < (localDay tz d + 1) * msPerDay.
Proof.
  unfold localDay, Day, msPerDay.
  generalize (LocalTime tz (getTime d)). intros t.
  Z.div_mod_to_equations. lia.
Qed.

(** Two instants whose local times are at least the spread of the offsets
    apart are in the order of their local times. *)
Lemma getTime_lt_spread (tz : Zone) (bound : Z) (d e : Date) :
  offsetSpread tz bound ->
  LocalTime tz (getTime d) + bound <= LocalTime tz (getTime e) ->
  getTime d < getTime e.
Proof.
  intros Hspread. unfold LocalTime.
  pose proof (Hspread (getTime e) (getTime d)). lia.
Qed.

Lemma getHours_le (tz : Zone) (d : Date) (h : Z) :
  0 <= h < 24 ->
  (h <= getHours tz d
   <-> localDay tz d * msPerDay + h * msPerHour <= LocalTime tz (getTime d)).
Proof.
  unfold getHours, HourFromTime, localDay, Day, msPerDay, msPerHour.
  generalize (LocalTime tz (getTime d)). intros t Hh.
  Z.div_mod_to_equations. lia.
Qed.

(** *** The zone of the samples *)

(** Its clock skips no time but the hour from 2:00 on 9 March 2025, and
    that hour is read as the hour from 3:00 of the same day. *)
Lemma zone_regular (t : Z) :
  t < 1741485600000 \/ 1741489200000 <= t -> regular zone t.
Proof.
  intros H. unfold regular, LocalTime, UTC, zone.
  repeat match goal with
         | |- context [?a <? ?b] => destruct (Z.ltb_spec a b)
         end; lia.
Qed.

Lemma zone_keepsDays : keepsDays zone.
Proof.
  intros t. unfold LocalTime, UTC, zone, Day, msPerDay.
  repeat match goal with
         | |- context [?a <? ?b] => destruct (Z.ltb_spec a b)
         end; try (f_equal; lia); Z.div_mod_to_equations; lia.
Qed.

Lemma zone_showsHour (hour : Z) : 0 <= hour < 24 -> hour <> 2 -> showsHour zone hour.
Proof.
  intros Hh Hne day. apply zone_regular.
  unfold MakeDate, MakeTime, msPerDay, msPerHour, msPerMinute, msPerSecond. lia.
Qed.

Lemma zone_showsSlotHours : showsSlotHours zone.
Proof. repeat split; apply zone_showsHour; lia. Qed.

Lemma zone_offsetSpread : offsetSpread zone (9 * msPerHour).
Proof.
  intros t t'. unfold zone, msPerHour.
  repeat match goal with
         | |- context [?a <? ?b] => destruct (Z.ltb_spec a b)
         end; lia.
Qed.

(** ** [Math] on integers *)

Lemma Math_floor_third (n : Z) : Math_floor (inject_Z n / 3)%Q = n / 3.
Proof.
  unfold Math_floor, Qdiv, Qmult, Qinv, inject_Z. cbn.
  rewrite Z.mul_1_r. reflexivity.
Qed.

Lemma Math_ceil_half (x : Z) : Math_ceil (inject_Z x / 2)%Q = (x + 1) / 2.
Proof.
  unfold Math_ceil, Qceiling, Qdiv, Qmult, Qinv, Qopp, inject_Z. cbn.
  rewrite Z.mul_1_r. change (Z.pos (1 * 2)) with 2.
  pose proof (Z.div_mod (- x) 2) as H1. pose proof (Z.mod_pos_bound (- x) 2) as H2.
  pose proof (Z.div_mod (x + 1) 2) as H3. pose proof (Z.mod_pos_bound (x + 1) 2) as H4.
  lia.
Qed.
(** ** [Array.prototype.sort] *)

Lemma precedes_cons {A : Type} (l : list A) (z x y : A) :
  precedes (z :: l) x y <-> (z = x /\ y ∈ l) \/ precedes l x y.
Proof.
  split.
  - intros (i & j & Hij & Hi & Hj).
    destruct j as [|j]; [lia|]. cbn in Hj.
    destruct i as [|i]; cbn in Hi.
    + left. split; [congruence|]. eapply list_elem_of_lookup_2, Hj.
    + right. exists i, j. split; [lia|]. split; assumption.
  - intros [[-> Hy] | (i & j & Hij & Hi & Hj)].
    + apply list_elem_of_lookup_1 in Hy as [j Hj].
      exists 0%nat, (S j). split; [lia|]. split; [reflexivity | exact Hj].
    + exists (S i), (S j). split; [lia|]. split; assumption.
Qed.

Lemma Sorted_neighbours {A : Type} (R : A -> A -> Prop) (l : list A) (i : nat) (a b : A) :
  Sorted R l -> l !! i = Some a -> l !! S i = Some b -> R a b.
Proof.
  intros Hl. revert i. induction Hl as [|x l Hl IH Hhd]; intros i Hi Hj.
  - discriminate Hi.
  - destruct i as [|i]; cbn in Hi, Hj.
    + injection Hi as ->. destruct Hhd as [|y l Hxy]; [discriminate Hj|].
      cbn in Hj. injection Hj as ->. exact Hxy.
    + eapply IH; eassumption.
Qed.

(** *** Consistent comparators *)

Lemma consistent_incl {A : Type} (comparefn : A -> A -> Z) (l l' : list A) :
  (forall a, a ∈ l' -> a ∈ l) -> consistent comparefn l -> consistent comparefn l'.
Proof. intros Hincl H a b c Ha Hb Hc. apply H; apply Hincl; assumption. Qed.

Lemma consistent_Permutation {A : Type} (comparefn : A -> A -> Z) (l l' : list A) :
  l' ≡ₚ l -> consistent comparefn l -> consistent comparefn l'.
Proof. intros Hp. apply consistent_incl. intros a. rewrite Hp. auto. Qed.

Section ConsistentFacts.

Context {A : Type} (comparefn : A -> A -> Z) (l : list A).
Hypothesis Hconsistent : consistent comparefn l.

(** The answers for a pair in its two orders are opposite. *)
Lemma consistent_flip (a b : A) :
  a ∈ l -> b ∈ l -> (comparefn a b < 0 <-> 0 < comparefn b a).
Proof.
  intros Ha Hb.
  destruct (Hconsistent a b a Ha Hb Ha) as (Hrefl & Hsym & _ & Hlt & Hgt).
  destruct (Hconsistent b a b Hb Ha Hb) as (_ & Hsym' & _ & Hlt' & Hgt').
  split; intros H.
  - destruct (Z.lt_total (comparefn b a) 0) as [Hba | [Hba | Hba]]; [| |exact Hba].
    + specialize (Hlt H Hba). lia.
    + specialize (Hsym' Hba). lia.
  - destruct (Z.lt_total (comparefn a b) 0) as [Hab | [Hab | Hab]]; [exact Hab| |].
    + specialize (Hsym Hab). lia.
    + specialize (Hgt Hab H). lia.
Qed.

Lemma consistent_le_trans (a b c : A) :
  a ∈ l -> b ∈ l -> c ∈ l ->
  comparefn a b <= 0 -> comparefn b c <= 0 -> comparefn a c <= 0.
Proof.
  intros Ha Hb Hc Hab Hbc.
  destruct (Z_le_gt_dec (comparefn a c) 0) as [|Hac]; [assumption|exfalso].
  assert (Hca : comparefn c a < 0) by (apply consistent_flip; [assumption..|lia]).
  destruct (Hconsistent a b c Ha Hb Hc) as (_ & _ & Heq & Hlt & _).
  destruct (Hconsistent c a b Hc Ha Hb) as (_ & _ & _ & Hlt_cab & _).
  destruct (Hconsistent b c a Hb Hc Ha) as (_ & _ & _ & Hlt_bca & _).
  destruct (Hconsistent b c b Hb Hc Hb) as (_ & Hsym_bc & _).
  destruct (Hconsistent a b a Ha Hb Ha) as (_ & Hsym_ab & _).
  destruct (Z.eq_dec (comparefn a b) 0) as [Eab | Nab];
    destruct (Z.eq_dec (comparefn b c) 0) as [Ebc | Nbc].
  - specialize (Heq Eab Ebc). lia.
  - assert (Hbc' : comparefn b c < 0) by lia.
    specialize (Hlt_bca Hbc' Hca). specialize (Hsym_ab Eab). lia.
  - assert (Hab' : comparefn a b < 0) by lia.
    specialize (Hlt_cab Hca Hab'). specialize (Hsym_bc Ebc). lia.
  - assert (Hab' : comparefn a b < 0) by lia.
    assert (Hbc' : comparefn b c < 0) by lia.
    specialize (Hlt Hab' Hbc'). lia.
Qed.

Lemma consistent_gt_trans (a b c : A) :
  a ∈ l -> b ∈ l -> c ∈ l ->
  0 < comparefn a b -> 0 < comparefn b c -> 0 < comparefn a c.
Proof. intros Ha Hb Hc. apply (Hconsistent a b c Ha Hb Hc). Qed.

(** In a list whose neighbours are in order every element is in order with
    every later one. *)
Lemma Sorted_consistent_pairs :
  Sorted (ordered comparefn) l ->
  forall (i j : nat) (a b : A),
    (i <= j)%nat -> l !! i = Some a -> l !! j = Some b -> comparefn a b <= 0.
Proof.
  intros Hl i j. revert i. induction j as [|j IH]; intros i a b Hij Hi Hj.
  - assert (i = 0%nat) as -> by lia. rewrite Hi in Hj. injection Hj as <-.
    assert (Ha : a ∈ l) by (eapply list_elem_of_lookup_2, Hi).
    destruct (Hconsistent a a a Ha Ha Ha) as [Hrefl _]. lia.
  - assert (Ha : a ∈ l) by (eapply list_elem_of_lookup_2, Hi).
    assert (Hb : b ∈ l) by (eapply list_elem_of_lookup_2, Hj).
    destruct (decide (i = S j)) as [-> | Hne].
    + rewrite Hi in Hj. injection Hj as <-.
      destruct (Hconsistent a a a Ha Ha Ha) as [Hrefl _]. lia.
    + assert (is_Some (l !! j)) as [c Hc]
        by (apply lookup_lt_is_Some; apply lookup_lt_Some in Hj; lia).
      assert (Hc' : c ∈ l) by (eapply list_elem_of_lookup_2, Hc).
      apply (consistent_le_trans a c b); try assumption.
      * apply (IH i a c); [lia|assumption..].
      * apply (Sorted_neighbours _ _ _ _ _ Hl Hc Hj).
Qed.

End ConsistentFacts.

(** *** The reference sort *)

Section ArraySortFacts.

Context {A : Type} (comparefn : A -> A -> Z).

Lemma sort_insert_Permutation (x : A) (l : list A) :
  sort_insert comparefn x l ≡ₚ x :: l.
Proof.
  induction l as [|y l IH]; cbn; [reflexivity|].
  destruct (comparefn x y <=? 0); [reflexivity|].
  rewrite IH. apply Permutation_swap.
Qed.

Lemma stableSort_Permutation (l : list A) : stableSort comparefn l ≡ₚ l.
Proof.
  induction l as [|x l IH]; cbn; [reflexivity|].
  rewrite sort_insert_Permutation, IH. reflexivity.
Qed.

Lemma elem_of_sort_insert (y x : A) (l : list A) :
  y ∈ sort_insert comparefn x l <-> y = x \/ y ∈ l.
Proof. rewrite sort_insert_Permutation. apply elem_of_cons. Qed.

(** Stability: an element only ever moves past elements the comparator
    puts before it. *)
Lemma precedes_sort_insert_new (x y : A) (l : list A) :
  y ∈ l -> comparefn x y <= 0 -> precedes (sort_insert comparefn x l) x y.
Proof.
  intros Hy Hxy. induction l as [|z l IH]; [inversion Hy|].
  cbn. destruct (comparefn x z <=? 0) eqn:Hxz.
  - apply precedes_cons. left. split; [reflexivity | exact Hy].
  - apply precedes_cons. right. apply IH.
    apply elem_of_cons in Hy as [-> | Hy]; [|exact Hy].
    apply Z.leb_gt in Hxz. lia.
Qed.

Lemma precedes_sort_insert_old (a x y : A) (l : list A) :
  precedes l x y -> precedes (sort_insert comparefn a l) x y.
Proof.
  induction l as [|z l IH]; intros H.
  - destruct H as (i & j & _ & Hi & _). discriminate Hi.
  - cbn. destruct (comparefn a z <=? 0).
    + apply precedes_cons. right. exact H.
    + apply precedes_cons in H as [[-> Hy] | H]; apply precedes_cons.
      * left. split; [reflexivity|]. apply elem_of_sort_insert. right. exact Hy.
      * right. apply IH, H.
Qed.

Lemma stableSort_stable (l : list A) (x y : A) :
  precedes l x y -> comparefn x y <= 0 -> precedes (stableSort comparefn l) x y.
Proof.
  intros H Hxy. induction l as [|z l IH].
  - destruct H as (i & j & _ & Hi & _). discriminate Hi.
  - cbn. apply precedes_cons in H as [[-> Hy] | H].
    + apply precedes_sort_insert_new; [|exact Hxy].
      rewrite stableSort_Permutation. exact Hy.
    + apply precedes_sort_insert_old, IH, H.
Qed.

(** Order of the result: neighbours are in the comparator's order, when the
    comparator never asks for both [x] before [y] and [y] before [x] among
    the elements. *)
Lemma sort_insert_Sorted (x : A) (l : list A) :
  (forall y, y ∈ l -> 0 < comparefn x y -> comparefn y x <= 0) ->
  Sorted (ordered comparefn) l -> Sorted (ordered comparefn) (sort_insert comparefn x l).
Proof.
  intros Hasym. induction 1 as [|y l Hl IH Hhd]; cbn.
  - repeat constructor.
  - destruct (comparefn x y <=? 0) eqn:Hxy.
    + apply Z.leb_le in Hxy. repeat constructor; assumption.
    + apply Z.leb_gt in Hxy.
      assert (Hyx : comparefn y x <= 0) by (apply Hasym; [left|exact Hxy]).
      constructor; [apply IH; intros z Hz; apply Hasym; right; exact Hz|].
      destruct Hhd as [|z l Hyz]; cbn.
      * constructor. exact Hyx.
      * destruct (comparefn x z <=? 0); constructor; [exact Hyx | exact Hyz].
Qed.

Lemma stableSort_Sorted (l : list A) :
  (forall x y, x ∈ l -> y ∈ l -> 0 < comparefn x y -> comparefn y x <= 0) ->
  Sorted (ordered comparefn) (stableSort comparefn l).
Proof.
  induction l as [|x l IH]; intros Hasym; cbn; [constructor|].
  apply sort_insert_Sorted.
  - intros y Hy. rewrite stableSort_Permutation in Hy.
    apply Hasym; [left | right; exact Hy].
  - apply IH. intros y z Hy Hz. apply Hasym; right; assumption.
Qed.

(** Sorting a list whose neighbours are in order returns it as it is. *)
Lemma stableSort_Sorted_id (l : list A) :
  Sorted (ordered comparefn) l -> stableSort comparefn l = l.
Proof.
  induction 1 as [|x l Hl IH Hhd]; cbn; [reflexivity|].
  rewrite IH. destruct Hhd as [|y l Hxy]; cbn; [reflexivity|].
  unfold ordered in Hxy. apply Z.leb_le in Hxy. rewrite Hxy. reflexivity.
Qed.

(** A key the comparator never contradicts stays in order when an element
    is put in. *)
Lemma sort_insert_by_key (key : A -> Z) (x : A) (l : list A) :
  (forall y, y ∈ l -> key x < key y -> comparefn x y < 0) ->
  (forall y, y ∈ l -> key y < key x -> 0 < comparefn x y) ->
  StronglySorted (fun a b => key a <= key b) l ->
  StronglySorted (fun a b => key a <= key b) (sort_insert comparefn x l).
Proof.
  intros Hlt Hgt. induction 1 as [|y l Hl IH Hall]; cbn.
  - repeat constructor.
  - destruct (comparefn x y <=? 0) eqn:Hxy.
    + apply Z.leb_le in Hxy.
      assert (Hk : key x <= key y).
      { destruct (Z_le_gt_dec (key x) (key y)) as [|Hc]; [assumption|].
        pose proof (Hgt y ltac:(left) ltac:(lia)). lia. }
      constructor; [constructor; assumption|].
      constructor; [exact Hk|].
      eapply Forall_impl; [exact Hall|]. cbn. intros z Hz. lia.
    + apply Z.leb_gt in Hxy.
      assert (Hk : key y <= key x).
      { destruct (Z_le_gt_dec (key y) (key x)) as [|Hc]; [assumption|].
        pose proof (Hlt y ltac:(left) ltac:(lia)). lia. }
      constructor.
      * apply IH; intros z Hz; [apply Hlt | apply Hgt]; right; exact Hz.
      * apply Forall_forall. intros z Hz.
        apply elem_of_sort_insert in Hz as [-> | Hz]; [exact Hk|].
        rewrite Forall_forall in Hall. apply Hall, Hz.
Qed.

End ArraySortFacts.

Lemma StronglySorted_lookup {A : Type} (R : A -> A -> Prop) (l : list A) :
  StronglySorted R l ->
  forall (i j : nat) (a b : A),
    (i < j)%nat -> l !! i = Some a -> l !! j = Some b -> R a b.
Proof.
  induction 1 as [|x l Hl IH Hall]; intros i j a b Hij Hi Hj; [discriminate Hi|].
  destruct j as [|j]; [lia|]. cbn in Hj.
  destruct i as [|i]; cbn in Hi.
  - injection Hi as ->. rewrite Forall_forall in Hall.
    apply Hall. eapply list_elem_of_lookup_2, Hj.
  - apply (IH i j); [lia|assumption..].
Qed.

(** The reference sort is an engine as the language asks for, and it keeps
    keys in order. *)
Lemma stableSort_permutes {A : Type} : permutes (@stableSort A).
Proof. intros comparefn l. apply stableSort_Permutation. Qed.

Lemma stableSort_sortsConsistent {A : Type} : sortsConsistent (@stableSort A).
Proof. intros comparefn l _. reflexivity. Qed.

Lemma stableSort_sortsByKey {A : Type} : sortsByKey (@stableSort A).
Proof.
  intros key comparefn l Hkey.
  assert (Hs : StronglySorted (fun a b => key a <= key b) (stableSort comparefn l)).
  { induction l as [|x l IH]; cbn; [constructor|].
    apply sort_insert_by_key.
    - intros y Hy Hlt. rewrite stableSort_Permutation in Hy.
      apply Hkey; [left | right; exact Hy | exact Hlt].
    - intros y Hy Hlt. rewrite stableSort_Permutation in Hy.
      apply (Hkey y x); [right; exact Hy | left | exact Hlt].
    - apply IH. intros a b Ha Hb. apply Hkey; right; assumption. }
  intros i j a b Hij Hi Hj.
  destruct (decide (i = j)) as [-> | Hne].
  - rewrite Hi in Hj. injection Hj as ->. lia.
  - apply (StronglySorted_lookup _ _ Hs i j); [lia|assumption..].
Qed.

(** *** The merge sort *)

Section MergeSortFacts.

Context {A : Type} (comparefn : A -> A -> Z).

Lemma merge_nil_l (l : list A) : merge comparefn [] l = l.
Proof. destruct l; reflexivity. Qed.

Lemma merge_nil_r (l : list A) : merge comparefn l [] = l.
Proof. destruct l; reflexivity. Qed.

Lemma merge_cons_cons (x y : A) (l1 l2 : list A) :
  merge comparefn (x :: l1) (y :: l2)
  = if comparefn x y <=? 0 then x :: merge comparefn l1 (y :: l2)
    else y :: merge comparefn (x :: l1) l2.
Proof. reflexivity. Qed.

Lemma merge_Permutation (l1 l2 : list A) : merge comparefn l1 l2 ≡ₚ l1 ++ l2.
Proof.
  revert l2. induction l1 as [|x l1 IH1]; intros l2; [rewrite merge_nil_l; reflexivity|].
  induction l2 as [|y l2 IH2]; [rewrite merge_nil_r, app_nil_r; reflexivity|].
  rewrite merge_cons_cons. destruct (comparefn x y <=? 0).
  - rewrite IH1. reflexivity.
  - rewrite IH2. apply Permutation_middle.
Qed.

Lemma mergeSort_upto_Permutation (fuel : nat) (l : list A) :
  mergeSort_upto comparefn fuel l ≡ₚ l.
Proof.
  revert l. induction fuel as [|fuel IH]; intros l; [reflexivity|].
  destruct l as [|x [|y l]]; [reflexivity..|]. cbn [mergeSort_upto].
  rewrite merge_Permutation, !IH, take_drop. reflexivity.
Qed.

(** Putting an element into the left list before or after merging comes to
    the same, when the comparator is transitive from that element on. *)
Lemma merge_sort_insert (x : A) (l1 l2 : list A) :
  (forall z y, z ∈ l1 -> y ∈ l2 ->
     comparefn x z <= 0 -> comparefn z y <= 0 -> comparefn x y <= 0) ->
  (forall z y, z ∈ l1 -> y ∈ l2 ->
     0 < comparefn x z -> 0 < comparefn z y -> 0 < comparefn x y) ->
  merge comparefn (sort_insert comparefn x l1) l2
  = sort_insert comparefn x (merge comparefn l1 l2).
Proof.
  revert l2. induction l1 as [|z l1 IH1]; intros l2 Hle Hgt.
  - rewrite merge_nil_l. cbn [sort_insert]. clear Hle Hgt.
    induction l2 as [|y l2 IH2]; [reflexivity|].
    rewrite merge_cons_cons, merge_nil_l. cbn [sort_insert].
    destruct (comparefn x y <=? 0); [reflexivity|]. f_equal. exact IH2.
  - induction l2 as [|y l2 IH2].
    + rewrite !merge_nil_r. reflexivity.
    + assert (IH2' : merge comparefn (sort_insert comparefn x (z :: l1)) l2
                     = sort_insert comparefn x (merge comparefn (z :: l1) l2)).
      { apply IH2; intros z' y' Hz' Hy'; [apply Hle | apply Hgt];
          try exact Hz'; right; exact Hy'. }
      clear IH2. cbn [sort_insert] in *. rewrite (merge_cons_cons z y).
      destruct (Z.leb_spec (comparefn x z) 0) as [Hxz | Hxz];
        destruct (Z.leb_spec (comparefn z y) 0) as [Hzy | Hzy];
        rewrite merge_cons_cons; cbn [sort_insert].
      * assert (Hxy : comparefn x y <= 0)
          by (apply (Hle z y); [left|left|assumption..]).
        rewrite (proj2 (Z.leb_le _ _) Hxy), (proj2 (Z.leb_le _ _) Hxz).
        rewrite merge_cons_cons, (proj2 (Z.leb_le _ _) Hzy). reflexivity.
      * destruct (Z.leb_spec (comparefn x y) 0) as [Hxy | Hxy].
        -- rewrite merge_cons_cons, (proj2 (Z.leb_gt _ _) Hzy). reflexivity.
        -- f_equal. exact IH2'.
      * rewrite (proj2 (Z.leb_le _ _) Hzy), (proj2 (Z.leb_gt _ _) Hxz). f_equal.
        apply IH1; intros z' y' Hz' Hy'; [apply Hle | apply Hgt];
          try exact Hy'; right; exact Hz'.
      * assert (Hxy : 0 < comparefn x y)
          by (apply (Hgt z y); [left|left|assumption..]).
        rewrite (proj2 (Z.leb_gt _ _) Hzy), (proj2 (Z.leb_gt _ _) Hxy). f_equal.
        exact IH2'.
Qed.

(** Merging the sorted halves of a list gives the sorted list, for a
    comparator consistent on it. *)
Lemma merge_stableSort (l1 l2 : list A) :
  consistent comparefn (l1 ++ l2) ->
  merge comparefn (stableSort comparefn l1) (stableSort comparefn l2)
  = stableSort comparefn (l1 ++ l2).
Proof.
  induction l1 as [|x l1 IH]; intros Hc; [apply merge_nil_l|].
  cbn [stableSort app]. rewrite merge_sort_insert.
  - rewrite IH; [reflexivity|].
    eapply consistent_incl; [|exact Hc]. intros a Ha. right. exact Ha.
  - intros z y Hz Hy. rewrite stableSort_Permutation in Hz, Hy.
    apply (consistent_le_trans comparefn _ Hc); cbn;
      [left | right; apply elem_of_app; left; exact Hz
       | right; apply elem_of_app; right; exact Hy].
  - intros z y Hz Hy. rewrite stableSort_Permutation in Hz, Hy.
    apply (consistent_gt_trans comparefn _ Hc); cbn;
      [left | right; apply elem_of_app; left; exact Hz
       | right; apply elem_of_app; right; exact Hy].
Qed.

Lemma mergeSort_upto_stableSort (fuel : nat) (l : list A) :
  (length l <= fuel)%nat -> consistent comparefn l ->
  mergeSort_upto comparefn fuel l = stableSort comparefn l.
Proof.
  revert l. induction fuel as [|fuel IH]; intros l Hlen Hc.
  - destruct l; [reflexivity|cbn in Hlen; lia].
  - destruct l as [|x [|y l]]; [reflexivity..|]. cbn [mergeSort_upto].
    set (whole := x :: y :: l) in *.
    set (middle := (length whole / 2)%nat).
    assert (Hmid : (0 < middle < length whole)%nat).
    { subst middle whole. cbn [length].
      pose proof (Nat.div_mod_eq (S (S (length l))) 2) as E.
      pose proof (Nat.mod_upper_bound (S (S (length l))) 2 ltac:(lia)). lia. }
    rewrite !IH.
    + rewrite merge_stableSort, take_drop; [reflexivity|].
      rewrite take_drop. exact Hc.
    + rewrite length_drop. lia.
    + eapply consistent_incl; [|exact Hc]. intros a Ha.
      rewrite <- (take_drop middle whole). apply elem_of_app. right. exact Ha.
    + rewrite length_take. lia.
    + eapply consistent_incl; [|exact Hc]. intros a Ha.
      rewrite <- (take_drop middle whole). apply elem_of_app. left. exact Ha.
Qed.

End MergeSortFacts.

(** The merge sort is an engine as the language asks for. *)
Lemma mergeSort_permutes {A : Type} : permutes (@mergeSort A).
Proof. intros comparefn l. apply mergeSort_upto_Permutation. Qed.

Lemma mergeSort_sortsConsistent {A : Type} : sortsConsistent (@mergeSort A).
Proof. intros comparefn l Hc. apply mergeSort_upto_stableSort; [lia | exact Hc]. Qed.

(** *** Keys in the sample engines *)

Lemma keyed_incl {A : Type} (key : A -> Z) (comparefn : A -> A -> Z) (l l' : list A) :
  (forall a, a ∈ l' -> a ∈ l) -> keyed key comparefn l -> keyed key comparefn l'.
Proof. intros Hincl H a b Ha Hb. apply H; apply Hincl; assumption. Qed.

(** Where the comparator does not want [a] after [b], the key of [a] is not
    the larger one. *)
Lemma keyed_le {A : Type} (key : A -> Z) (comparefn : A -> A -> Z) (l : list A) (a b : A) :
  keyed key comparefn l -> a ∈ l -> b ∈ l -> comparefn a b <= 0 -> key a <= key b.
Proof.
  intros Hkey Ha Hb Hab.
  destruct (Z_le_gt_dec (key a) (key b)) as [|Hgt]; [assumption|].
  destruct (Hkey b a Hb Ha ltac:(lia)). lia.
Qed.

Lemma keyed_ge {A : Type} (key : A -> Z) (comparefn : A -> A -> Z) (l : list A) (a b : A) :
  keyed key comparefn l -> a ∈ l -> b ∈ l -> 0 <= comparefn a b -> key b <= key a.
Proof.
  intros Hkey Ha Hb Hab.
  destruct (Z_le_gt_dec (key b) (key a)) as [|Hgt]; [assumption|].
  destruct (Hkey a b Ha Hb ltac:(lia)). lia.
Qed.

Lemma byKey_lookup {A : Type} (key : A -> Z) (l : list A) :
  byKey key l ->
  forall (i j : nat) (a b : A),
    (i <= j)%nat -> l !! i = Some a -> l !! j = Some b -> key a <= key b.
Proof.
  intros Hs i j a b Hij Hi Hj.
  destruct (decide (i = j)) as [-> | Hne].
  - rewrite Hi in Hj. injection Hj as ->. lia.
  - apply (StronglySorted_lookup _ _ Hs i j); [lia|assumption..].
Qed.

Section SampleEngineKeys.

Context {A : Type} (key : A -> Z) (comparefn : A -> A -> Z).

Lemma merge_by_key (l1 l2 : list A) :
  keyed key comparefn (l1 ++ l2) ->
  byKey key l1 -> byKey key l2 -> byKey key (merge comparefn l1 l2).
Proof.
  unfold byKey. revert l2. induction l1 as [|x l1 IH1]; intros l2 Hkey H1 H2.
  - rewrite merge_nil_l. exact H2.
  - induction l2 as [|y l2 IH2]; [rewrite merge_nil_r; exact H1|].
    apply StronglySorted_cons in H1 as [Hx H1]. apply StronglySorted_cons in H2 as [Hy H2].
    rewrite Forall_forall in Hx, Hy.
    assert (Hin_x : x ∈ (x :: l1) ++ y :: l2) by (left).
    assert (Hin_y : y ∈ (x :: l1) ++ y :: l2)
      by (apply elem_of_app; right; left).
    rewrite merge_cons_cons.
    destruct (Z.leb_spec (comparefn x y) 0) as [Hxy | Hxy].
    + pose proof (keyed_le key comparefn _ x y Hkey Hin_x Hin_y Hxy) as Hk.
      apply StronglySorted_cons. split.
      * apply Forall_forall. intros z Hz. rewrite merge_Permutation in Hz.
        apply elem_of_app in Hz as [Hz | Hz]; [apply Hx, Hz|].
        apply elem_of_cons in Hz as [-> | Hz]; [exact Hk|].
        pose proof (Hy z Hz). lia.
      * apply IH1; [|exact H1|apply StronglySorted_cons; rewrite Forall_forall; auto].
        eapply keyed_incl; [|exact Hkey]. intros a Ha. right. exact Ha.
    + pose proof (keyed_ge key comparefn _ x y Hkey Hin_x Hin_y ltac:(lia)) as Hk.
      apply StronglySorted_cons. split.
      * apply Forall_forall. intros z Hz. rewrite merge_Permutation in Hz.
        apply elem_of_app in Hz as [Hz | Hz]; [|apply Hy, Hz].
        apply elem_of_cons in Hz as [-> | Hz]; [exact Hk|].
        pose proof (Hx z Hz). lia.
      * apply IH2; [|exact H2].
        eapply keyed_incl; [|exact Hkey]. intros a Ha.
        apply elem_of_app in Ha as [Ha | Ha]; apply elem_of_app;
          [left; exact Ha | right; right; exact Ha].
Qed.

Lemma mergeSort_upto_by_key (fuel : nat) (l : list A) :
  (length l <= fuel)%nat -> keyed key comparefn l ->
  byKey key (mergeSort_upto comparefn fuel l).
Proof.
  unfold byKey. revert l. induction fuel as [|fuel IH]; intros l Hlen Hkey.
  - destruct l; [constructor|cbn in Hlen; lia].
  - destruct l as [|x [|y l]]; [constructor|repeat constructor|]. cbn [mergeSort_upto].
    set (whole := x :: y :: l) in *.
    set (middle := (length whole / 2)%nat).
    assert (Hmid : (0 < middle < length whole)%nat).
    { subst middle whole. cbn [length].
      pose proof (Nat.div_mod_eq (S (S (length l))) 2) as E.
      pose proof (Nat.mod_upper_bound (S (S (length l))) 2 ltac:(lia)). lia. }
    apply merge_by_key.
    + eapply keyed_incl; [|exact Hkey]. intros a Ha.
      rewrite !mergeSort_upto_Permutation, take_drop in Ha. exact Ha.
    + apply IH; [rewrite length_take; lia|].
      eapply keyed_incl; [|exact Hkey]. intros a Ha.
      rewrite <- (take_drop middle whole). apply elem_of_app. left. exact Ha.
    + apply IH; [rewrite length_drop; lia|].
      eapply keyed_incl; [|exact Hkey]. intros a Ha.
      rewrite <- (take_drop middle whole). apply elem_of_app. right. exact Ha.
Qed.

(** **** Runs and binary insertion *)

Lemma ascendingRun_app (previous : A) (l run others : list A) :
  ascendingRun comparefn previous l = (run, others) -> run ++ others = l.
Proof.
  revert previous run others. induction l as [|current rest IH]; intros previous run others.
  - cbn. intros E. injection E as <- <-. reflexivity.
  - cbn. destruct (comparefn current previous <? 0).
    + intros E. injection E as <- <-. reflexivity.
    + destruct (ascendingRun comparefn current rest) as [run' others'] eqn:E'.
      intros E. injection E as <- <-. cbn. f_equal. apply (IH current). exact E'.
Qed.

Lemma descendingRun_app (previous : A) (l run others : list A) :
  descendingRun comparefn previous l = (run, others) -> run ++ others = l.
Proof.
  revert previous run others. induction l as [|current rest IH]; intros previous run others.
  - cbn. intros E. injection E as <- <-. reflexivity.
  - cbn. destruct (comparefn current previous <? 0).
    + destruct (descendingRun comparefn current rest) as [run' others'] eqn:E'.
      intros E. injection E as <- <-. cbn. f_equal. apply (IH current). exact E'.
    + intros E. injection E as <- <-. reflexivity.
Qed.

Lemma countAndMakeRun_Permutation (l run others : list A) :
  countAndMakeRun comparefn l = (run, others) -> run ++ others ≡ₚ l.
Proof.
  destruct l as [|first [|second rest]]; cbn.
  - intros E. injection E as <- <-. reflexivity.
  - intros E. injection E as <- <-. reflexivity.
  - destruct (comparefn second first <? 0).
    + destruct (descendingRun comparefn second rest) as [run' others'] eqn:E'.
      intros E. injection E as <- <-.
      apply descendingRun_app in E'. subst rest.
      change (rev (first :: second :: run') ++ others'
              ≡ₚ (first :: second :: run') ++ others').
      rewrite <- Permutation_rev. reflexivity.
    + destruct (ascendingRun comparefn second rest) as [run' others'] eqn:E'.
      intros E. injection E as <- <-.
      apply ascendingRun_app in E'. subst rest. reflexivity.
Qed.

Lemma binaryInsert_Permutation (sorted : list A) (pivot : A) :
  binaryInsert comparefn sorted pivot ≡ₚ pivot :: sorted.
Proof.
  unfold binaryInsert. rewrite <- Permutation_middle, take_drop. reflexivity.
Qed.

Lemma fold_left_binaryInsert_Permutation (others run : list A) :
  fold_left (binaryInsert comparefn) others run ≡ₚ run ++ others.
Proof.
  revert run. induction others as [|pivot others IH]; intros run; cbn [fold_left].
  - rewrite app_nil_r. reflexivity.
  - rewrite IH, binaryInsert_Permutation. apply Permutation_middle.
Qed.

Lemma binaryInsertionSort_Permutation (l : list A) :
  binaryInsertionSort comparefn l ≡ₚ l.
Proof.
  unfold binaryInsertionSort.
  destruct (countAndMakeRun comparefn l) as [run others] eqn:E.
  rewrite fold_left_binaryInsert_Permutation.
  apply countAndMakeRun_Permutation, E.
Qed.

(** A non-descending run is in the order of the key. *)
Lemma ascendingRun_by_key (previous : A) (l run others : list A) :
  keyed key comparefn (previous :: l) ->
  ascendingRun comparefn previous l = (run, others) ->
  Sorted (fun a b => key a <= key b) (previous :: run).
Proof.
  revert previous run others. induction l as [|current rest IH];
    intros previous run others Hkey.
  - cbn. intros E. injection E as <- <-. repeat constructor.
  - cbn. destruct (Z.ltb_spec (comparefn current previous) 0) as [Hlt | Hge].
    + intros E. injection E as <- <-. repeat constructor.
    + destruct (ascendingRun comparefn current rest) as [run' others'] eqn:E'.
      intros E. injection E as <- <-.
      constructor.
      * apply (IH current run' others'); [|exact E'].
        eapply keyed_incl; [|exact Hkey]. intros a Ha. right. exact Ha.
      * constructor.
        apply (keyed_ge key comparefn _ current previous Hkey); [right; left|left|exact Hge].
Qed.

(** A strictly descending run is in the reverse order of the key. *)
Lemma descendingRun_by_key (previous : A) (l run others : list A) :
  keyed key comparefn (previous :: l) ->
  descendingRun comparefn previous l = (run, others) ->
  Sorted (fun a b => key b <= key a) (previous :: run).
Proof.
  revert previous run others. induction l as [|current rest IH];
    intros previous run others Hkey.
  - cbn. intros E. injection E as <- <-. repeat constructor.
  - cbn. destruct (Z.ltb_spec (comparefn current previous) 0) as [Hlt | Hge].
    + destruct (descendingRun comparefn current rest) as [run' others'] eqn:E'.
      intros E. injection E as <- <-.
      constructor.
      * apply (IH current run' others'); [|exact E'].
        eapply keyed_incl; [|exact Hkey]. intros a Ha. right. exact Ha.
      * constructor.
        apply (keyed_le key comparefn _ current previous Hkey); [right; left|left|lia].
    + intros E. injection E as <- <-. repeat constructor.
Qed.

Lemma byKey_rev (l : list A) :
  StronglySorted (fun a b => key b <= key a) l -> byKey key (rev l).
Proof.
  unfold byKey. induction 1 as [|x l Hl IH Hall]; cbn; [constructor|].
  apply StronglySorted_app. split; [|split; [exact IH | repeat constructor]].
  intros a b Ha Hb. apply list_elem_of_singleton in Hb as ->.
  rewrite Forall_forall in Hall. apply Hall. rewrite <- elem_of_reverse.
  unfold reverse. rewrite rev_alt in Ha. exact Ha.
Qed.

Lemma countAndMakeRun_by_key (l run others : list A) :
  keyed key comparefn l -> countAndMakeRun comparefn l = (run, others) -> byKey key run.
Proof.
  intros Hkey. destruct l as [|first [|second rest]]; cbn.
  - intros E. injection E as <- <-. constructor.
  - intros E. injection E as <- <-. repeat constructor.
  - destruct (Z.ltb_spec (comparefn second first) 0) as [Hlt | Hge].
    + destruct (descendingRun comparefn second rest) as [run' others'] eqn:E'.
      intros E. injection E as <- <-.
      change (byKey key (rev (first :: second :: run'))). apply byKey_rev.
      apply Sorted_StronglySorted; [intros a b c; lia|].
      constructor.
      * apply (descendingRun_by_key second rest run' others'); [|exact E'].
        eapply keyed_incl; [|exact Hkey]. intros a Ha. right. exact Ha.
      * constructor.
        apply (keyed_le key comparefn _ second first Hkey); [right; left|left|lia].
    + destruct (ascendingRun comparefn second rest) as [run' others'] eqn:E'.
      intros E. injection E as <- <-.
      apply Sorted_StronglySorted; [intros a b c; lia|].
      constructor.
      * apply (ascendingRun_by_key second rest run' others'); [|exact E'].
        eapply keyed_incl; [|exact Hkey]. intros a Ha. right. exact Ha.
      * constructor.
        apply (keyed_ge key comparefn _ second first Hkey); [right; left|left|exact Hge].
Qed.

(** The binary search ends at a place with no larger key before it and no
    smaller key from it on. *)
Lemma binarySearch_by_key (pivot : A) (sorted : list A) (fuel left right : nat) :
  byKey key sorted -> keyed key comparefn (pivot :: sorted) ->
  (left <= right <= length sorted)%nat -> (right - left <= fuel)%nat ->
  (forall i e, (i < left)%nat -> sorted !! i = Some e -> key e <= key pivot) ->
  (forall i e, (right <= i)%nat -> sorted !! i = Some e -> key pivot <= key e) ->
  let place := binarySearch comparefn fuel pivot sorted left right in
  (place <= length sorted)%nat
  /\ (forall i e, (i < place)%nat -> sorted !! i = Some e -> key e <= key pivot)
  /\ (forall i e, (place <= i)%nat -> sorted !! i = Some e -> key pivot <= key e).
Proof.
  intros Hsorted Hkey. cbv zeta. revert left right.
  induction fuel as [|fuel IH]; intros left right Hlr Hfuel Hbefore Hafter.
  - cbn. assert (left = right) as -> by lia. split; [lia|]. split; assumption.
  - cbn [binarySearch]. destruct (Nat.ltb_spec left right) as [Hlt | Hge].
    + set (mid := (left + (right - left) / 2)%nat).
      assert (Hmid : (left <= mid < right)%nat).
      { subst mid. pose proof (Nat.div_mod_eq (right - left) 2) as E.
        pose proof (Nat.mod_upper_bound (right - left) 2 ltac:(lia)). lia. }
      destruct (lookup_lt_is_Some_2 sorted mid ltac:(lia)) as [element Hel].
      rewrite Hel.
      assert (Hin : element ∈ sorted) by (eapply list_elem_of_lookup_2, Hel).
      destruct (Z.ltb_spec (comparefn pivot element) 0) as [Hneg | Hpos].
      * apply IH; [lia|lia|exact Hbefore|].
        intros i e Hi He.
        pose proof (keyed_le key comparefn _ pivot element Hkey
                      ltac:(left) ltac:(right; exact Hin) ltac:(lia)).
        pose proof (byKey_lookup key sorted Hsorted mid i element e Hi Hel He). lia.
      * apply IH; [lia|lia| |exact Hafter].
        intros i e Hi He.
        pose proof (keyed_ge key comparefn _ pivot element Hkey
                      ltac:(left) ltac:(right; exact Hin) Hpos).
        pose proof (byKey_lookup key sorted Hsorted i mid e element ltac:(lia) He Hel). lia.
    + assert (left = right) as -> by lia. split; [lia|]. split; assumption.
Qed.

Lemma binaryInsert_by_key (sorted : list A) (pivot : A) :
  byKey key sorted -> keyed key comparefn (pivot :: sorted) ->
  byKey key (binaryInsert comparefn sorted pivot).
Proof.
  intros Hsorted Hkey. unfold binaryInsert.
  destruct (binarySearch_by_key pivot sorted (length sorted) 0 (length sorted)
              Hsorted Hkey ltac:(lia) ltac:(lia))
    as (Hplace & Hbefore & Hafter).
  { intros i e Hi. lia. }
  { intros i e Hi He. apply lookup_lt_Some in He. lia. }
  set (place := binarySearch comparefn (length sorted) pivot sorted 0 (length sorted)) in *.
  unfold byKey in *. rewrite <- (take_drop place sorted) in Hsorted.
  apply StronglySorted_app in Hsorted as (Hcross & Htake & Hdrop).
  apply StronglySorted_app. split; [|split; [exact Htake|]].
  - intros a b Ha Hb. apply elem_of_cons in Hb as [-> | Hb]; [|apply Hcross; assumption].
    apply elem_of_take in Ha as (i & Hi & Hlt). apply (Hbefore i a Hlt Hi).
  - apply StronglySorted_cons. split; [|exact Hdrop].
    apply Forall_forall. intros b Hb. apply list_elem_of_lookup_1 in Hb as [i Hi].
    rewrite lookup_drop in Hi. apply (Hafter (place + i)%nat b ltac:(lia) Hi).
Qed.

Lemma fold_left_binaryInsert_by_key (others run : list A) :
  byKey key run -> keyed key comparefn (run ++ others) ->
  byKey key (fold_left (binaryInsert comparefn) others run).
Proof.
  revert run. induction others as [|pivot others IH]; intros run Hrun Hkey; [exact Hrun|].
  cbn [fold_left]. apply IH.
  - apply binaryInsert_by_key; [exact Hrun|].
    eapply keyed_incl; [|exact Hkey]. intros a Ha.
    apply elem_of_cons in Ha as [-> | Ha]; apply elem_of_app;
      [right; left | left; exact Ha].
  - eapply keyed_incl; [|exact Hkey]. intros a Ha.
    apply elem_of_app in Ha as [Ha | Ha].
    + rewrite binaryInsert_Permutation in Ha.
      apply elem_of_cons in Ha as [-> | Ha]; apply elem_of_app;
        [right; left | left; exact Ha].
    + apply elem_of_app. right. right. exact Ha.
Qed.

Lemma binaryInsertionSort_by_key (l : list A) :
  keyed key comparefn l -> byKey key (binaryInsertionSort comparefn l).
Proof.
  intros Hkey. unfold binaryInsertionSort.
  destruct (countAndMakeRun comparefn l) as [run others] eqn:E.
  pose proof (countAndMakeRun_Permutation l run others E) as Hperm.
  apply fold_left_binaryInsert_by_key.
  - apply (countAndMakeRun_by_key l run others Hkey E).
  - eapply keyed_incl; [|exact Hkey]. intros a Ha. rewrite <- Hperm. exact Ha.
Qed.

End SampleEngineKeys.

(** The three sample engines keep in order a key the comparator never
    contradicts. *)
Lemma mergeSort_sortsByKey {A : Type} : sortsByKey (@mergeSort A).
Proof.
  intros key comparefn l Hkey. apply byKey_lookup.
  apply mergeSort_upto_by_key; [lia | exact Hkey].
Qed.

Lemma binaryInsertionSort_permutes {A : Type} : permutes (@binaryInsertionSort A).
Proof. intros comparefn l. apply binaryInsertionSort_Permutation. Qed.

Lemma binaryInsertionSort_sortsByKey {A : Type} : sortsByKey (@binaryInsertionSort A).
Proof.
  intros key comparefn l Hkey. apply byKey_lookup.
  apply binaryInsertionSort_by_key. exact Hkey.
Qed.

(** ** The comparator and the sorted list *)

Lemma compareTasks_flip (a b : Task) : compareTasks b a = - compareTasks a b.
Proof.
  unfold compareTasks.
  rewrite (Z.eqb_sym (importance a) (importance b)).
  destruct (importance b =? importance a); cbn; [|lia].
  destruct (dueDate a), (dueDate b); lia.
Qed.

Lemma compareTasks_asym (x y : Task) :
  0 < compareTasks x y -> compareTasks y x <= 0.
Proof. rewrite (compareTasks_flip x y). lia. Qed.

Lemma ordered_importance (a b : Task) :
  ordered compareTasks a b -> importance b <= importance a.
Proof.
  unfold ordered, compareTasks.
  destruct (importance b =? importance a) eqn:E; cbn; [|lia].
  apply Z.eqb_eq in E. lia.
Qed.

Lemma ordered_dueDate (a b : Task) (da db : Date) :
  ordered compareTasks a b -> importance a = importance b ->
  dueDate a = Some da -> dueDate b = Some db -> getTime da <= getTime db.
Proof.
  unfold ordered, compareTasks. intros H Himp Ha Hb.
  rewrite Ha, Hb, Himp, Z.eqb_refl in H. cbn in H. lia.
Qed.

(** Equal importance and a missing due date: the comparator answers 0. *)
Lemma compareTasks_tie (a b : Task) :
  importance a = importance b -> dueDate a = None \/ dueDate b = None ->
  compareTasks a b = 0.
Proof.
  unfold compareTasks. intros -> H. rewrite Z.eqb_refl. cbn.
  destruct H as [-> | ->]; [reflexivity|]. destruct (dueDate a); reflexivity.
Qed.

(** The comparator of [sortTasksByAI] is consistent on a list no importance
    level of which mixes tasks with and without a due date. *)
Lemma unmixed_consistent (tasks : list Task) :
  unmixed tasks -> consistent compareTasks tasks.
Proof.
  intros Hu a b c Ha Hb Hc.
  pose proof (Hu a b Ha Hb) as Hab. pose proof (Hu b a Hb Ha) as Hba.
  pose proof (Hu b c Hb Hc) as Hbc. pose proof (Hu c b Hc Hb) as Hcb.
  unfold compareTasks.
  destruct (Z.eqb_spec (importance a) (importance a)) as [_|Hne]; [|lia].
  destruct (Z.eqb_spec (importance b) (importance a)) as [Eba|Nba];
    destruct (Z.eqb_spec (importance a) (importance b)) as [Eab|Nab]; try lia;
    destruct (Z.eqb_spec (importance c) (importance b)) as [Ecb|Ncb];
    destruct (Z.eqb_spec (importance c) (importance a)) as [Eca|Nca]; try lia;
    cbn [negb];
    destruct (dueDate a) as [da|], (dueDate b) as [db|], (dueDate c) as [dc|];
    repeat split; intros; try lia;
    exfalso;
    first [ discriminate (Hab Eab eq_refl) | discriminate (Hba Eba eq_refl)
          | discriminate (Hbc (eq_sym Ecb) eq_refl) | discriminate (Hcb Ecb eq_refl) ].
Qed.

(** ** The scheduling callback *)

Lemma slotHour_range (task : Task) : 0 <= slotHour task < 24.
Proof.
  unfold slotHour.
  destruct (8 <=? importance task); [lia|].
  destruct (6 <=? importance task); lia.
Qed.

Lemma daysBeforeDue_eq (task : Task) :
  daysBeforeDue task = Z.max 1 ((11 - importance task) / 2).
Proof.
  unfold daysBeforeDue, Math_max. rewrite Math_ceil_half.
  replace (10 - importance task + 1) with (11 - importance task) by lia.
  reflexivity.
Qed.

Lemma showsHour_slotHour (tz : Zone) (task : Task) :
  showsSlotHours tz -> showsHour tz (slotHour task).
Proof.
  intros (H9 & H13 & H15). unfold slotHour.
  destruct (8 <=? importance task); [exact H9|].
  destruct (6 <=? importance task); assumption.
Qed.

Lemma same_but_with_scheduledTime (d : option Date) (task : Task) :
  same_but_scheduledTime task (with_scheduledTime d task).
Proof. repeat split. Qed.

Lemma scheduleTask_kept (tz : Zone) (now : nat -> Date) (index : nat) (task : Task) :
  completed task = true \/ is_Some (scheduledTime task) ->
  scheduleTask tz now index task = task.
Proof.
  unfold scheduleTask. intros [-> | [d ->]]; [reflexivity|].
  cbn. rewrite orb_true_r. reflexivity.
Qed.

Lemma scheduleTask_scheduled (tz : Zone) (now : nat -> Date) (index : nat) (task : Task) :
  completed task = false -> scheduledTime task = None ->
  scheduleTask tz now index task
  = with_scheduledTime (Some (targetDate tz now index task)) task.
Proof. unfold scheduleTask. intros -> ->. reflexivity. Qed.

Lemma localDay_targetDate_due (tz : Zone) (now : nat -> Date) (index : nat)
    (task : Task) (due : Date) :
  keepsDays tz -> dueDate task = Some due ->
  localDay tz (targetDate tz now index task) = localDay tz due - daysBeforeDue task.
Proof.
  intros Hdays Hdue. unfold targetDate. rewrite Hdue.
  rewrite localDay_setHours by (exact Hdays || apply slotHour_range).
  replace (getDate tz (mkDate (getTime due)) - daysBeforeDue task)
    with (getDate tz (mkDate (getTime due)) + - daysBeforeDue task) by lia.
  rewrite localDay_setDate by exact Hdays. destruct due. cbn. lia.
Qed.

Lemma localDay_targetDate_no_due (tz : Zone) (now : nat -> Date) (index : nat)
    (task : Task) :
  keepsDays tz -> dueDate task = None ->
  localDay tz (targetDate tz now index task)
  = localDay tz (now index) + Z.of_nat index / 3.
Proof.
  intros Hdays Hdue. unfold targetDate. rewrite Hdue.
  rewrite localDay_setHours by (exact Hdays || apply slotHour_range).
  rewrite localDay_setDate by exact Hdays. rewrite Math_floor_third. reflexivity.
Qed.

(** The local time of the date the callback computes: the hour of the
    task's tier, sharp, on some day. *)
Lemma LocalTime_targetDate (tz : Zone) (now : nat -> Date) (index : nat) (task : Task) :
  showsHour tz (slotHour task) ->
  LocalTime tz (getTime (targetDate tz now index task))
  = MakeDate (localDay tz (targetDate tz now index task))
             (MakeTime (slotHour task) 0 0 0).
Proof.
  intros Hshows. unfold targetDate.
  set (d := match dueDate task with Some _ => _ | None => _ end).
  pose proof (LocalTime_setHours tz d (slotHour task) (Hshows _)) as E.
  rewrite E. f_equal. symmetry.
  apply (whole_hour_date tz _ _ _ (slotHour_range task) E).
Qed.

Lemma time_of_day_targetDate (tz : Zone) (now : nat -> Date) (index : nat) (task : Task) :
  showsHour tz (slotHour task) ->
  let d := targetDate tz now index task in
  getHours tz d = slotHour task /\ getMinutes tz d = 0
  /\ getSeconds tz d = 0 /\ getMilliseconds tz d = 0.
Proof.
  intros Hshows. cbv zeta.
  apply (whole_hour_date tz _ _ _ (slotHour_range task)
           (LocalTime_targetDate tz now index task Hshows)).
Qed.

(** The date [setHours] leaves depends on the day of its receiver only. *)
Lemma setHours_same_day (tz : Zone) (d1 d2 : Date) (h m s ms : Z) :
  localDay tz d1 = localDay tz d2 -> setHours tz d1 h m s ms = setHours tz d2 h m s ms.
Proof. unfold setHours, localDay. intros ->. reflexivity. Qed.

(** The callback changes neither key of the comparator. *)
Lemma compareTasks_scheduleTask (tz : Zone) (now : nat -> Date) (i j : nat) (a b : Task) :
  compareTasks (scheduleTask tz now i a) (scheduleTask tz now j b) = compareTasks a b.
Proof.
  unfold scheduleTask.
  destruct (completed a || truthy (scheduledTime a)),
           (completed b || truthy (scheduledTime b)); reflexivity.
Qed.

(** After the callback every task is completed or scheduled. *)
Lemma scheduleTask_settled (tz : Zone) (now : nat -> Date) (i : nat) (task : Task) :
  let task' := scheduleTask tz now i task in
  completed task' = true \/ is_Some (scheduledTime task').
Proof.
  cbv zeta. unfold scheduleTask.
  destruct (completed task) eqn:Hc; cbn; [left; exact Hc|].
  destruct (scheduledTime task) as [d|] eqn:Hs; cbn.
  - right. rewrite Hs. eexists. reflexivity.
  - right. eexists. reflexivity.
Qed.

(** ** [sortTasksByAI] *)

Section SortTasksFacts.

Context (tz : Zone) (sort : Engine) (now : nat -> Date) (tasks : list Task).

Lemma sortTasksByAI_lookup (i : nat) :
  sortTasksByAI tz sort now tasks !! i = scheduleTask tz now i <$> sortedTasks sort tasks !! i.
Proof. unfold sortTasksByAI. apply list_lookup_imap. Qed.

(** What stands at a position of the result where the sorted list has a
    task that is neither completed nor scheduled. *)
Lemma sortTasksByAI_lookup_open (i : nat) (task : Task) :
  sortedTasks sort tasks !! i = Some task ->
  completed task = false -> scheduledTime task = None ->
  sortTasksByAI tz sort now tasks !! i
  = Some (with_scheduledTime (Some (targetDate tz now i task)) task).
Proof.
  intros Hi Hc Hs. rewrite sortTasksByAI_lookup, Hi.
  cbn [fmap option_fmap option_map]. rewrite scheduleTask_scheduled by assumption.
  reflexivity.
Qed.

Lemma sortTasksByAI_lookup_kept (i : nat) (task : Task) :
  sortedTasks sort tasks !! i = Some task ->
  completed task = true \/ is_Some (scheduledTime task) ->
  sortTasksByAI tz sort now tasks !! i = Some task.
Proof.
  intros Hi H. rewrite sortTasksByAI_lookup, Hi.
  cbn [fmap option_fmap option_map]. rewrite scheduleTask_kept by exact H.
  reflexivity.
Qed.

Lemma elem_of_sortTasksByAI (task' : Task) :
  task' ∈ sortTasksByAI tz sort now tasks ->
  exists (i : nat) (task : Task),
    sortedTasks sort tasks !! i = Some task /\ task' = scheduleTask tz now i task.
Proof.
  intros [i Hi]%list_elem_of_lookup_1. rewrite sortTasksByAI_lookup in Hi.
  destruct (sortedTasks sort tasks !! i) as [task|] eqn:E; [|discriminate Hi].
  cbn in Hi. injection Hi as <-. exists i, task. split; [exact E | reflexivity].
Qed.

Hypothesis Hpermutes : permutes sort.

Lemma sortedTasks_Permutation : sortedTasks sort tasks ≡ₚ tasks.
Proof. apply Hpermutes. Qed.

Lemma sortTasksByAI_length : length (sortTasksByAI tz sort now tasks) = length tasks.
Proof.
  unfold sortTasksByAI. rewrite length_imap.
  apply Permutation_length, sortedTasks_Permutation.
Qed.

(** Every task of the list stands at a position of the sorted list, and
    nothing else does. *)
Lemma sortedTasks_positions (task : Task) :
  task ∈ tasks <-> exists i : nat, sortedTasks sort tasks !! i = Some task.
Proof. rewrite <- sortedTasks_Permutation. apply list_elem_of_lookup. Qed.

(** The comparator is as consistent on the result as on the task list. *)
Lemma consistent_sortTasksByAI :
  consistent compareTasks tasks ->
  consistent compareTasks (sortTasksByAI tz sort now tasks).
Proof.
  intros Hc a' b' c'.
  intros (i & a & Ha & ->)%elem_of_sortTasksByAI
         (j & b & Hb & ->)%elem_of_sortTasksByAI
         (k & c & Hc' & ->)%elem_of_sortTasksByAI.
  rewrite !compareTasks_scheduleTask.
  apply Hc; apply sortedTasks_positions; eauto.
Qed.

End SortTasksFacts.

(** Rewriting the tasks of a list in the comparator's order, keys untouched,
    leaves it in the comparator's order. *)
Lemma Sorted_imap_compareTasks (f : nat -> Task -> Task) (l : list Task) :
  (forall i j a b, compareTasks (f i a) (f j b) = compareTasks a b) ->
  Sorted (ordered compareTasks) l -> Sorted (ordered compareTasks) (imap f l).
Proof.
  intros Hf Hl. revert f Hf.
  induction Hl as [|x l Hl IH Hhd]; intros f Hf; cbn; constructor.
  - apply IH. intros i j a b. apply Hf.
  - destruct Hhd as [|y l Hxy]; cbn; constructor.
    unfold ordered in *. rewrite Hf. exact Hxy.
Qed.

Lemma imap_fixed {A : Type} (f : nat -> A -> A) (l : list A) :
  (forall i x, l !! i = Some x -> f i x = x) -> imap f l = l.
Proof.
  revert f. induction l as [|x l IH]; intros f H; cbn; [reflexivity|].
  rewrite (H 0%nat x eq_refl). f_equal.
  apply IH. intros i y Hi. apply (H (S i) y Hi).
Qed.

(** With a consistent comparator the sorted list is the one the language
    fixes, and its neighbours are in the comparator's order. *)
Lemma sortedTasks_consistent (sort : Engine) (tasks : list Task) :
  sortsConsistent sort -> consistent compareTasks tasks ->
  sortedTasks sort tasks = stableSort compareTasks tasks
  /\ Sorted (ordered compareTasks) (sortedTasks sort tasks).
Proof.
  intros Hsort Hc. unfold sortedTasks. rewrite (Hsort _ _ Hc).
  split; [reflexivity|]. apply stableSort_Sorted.
  intros x y _ _. apply compareTasks_asym.
Qed.

(** C1.  [sortTasksByAI] returns the sorted list, a rearrangement of the
    task list, with a task changed at a position only if it is neither
    completed nor scheduled: a task that is completed or has a
    [scheduledTime] comes out as it went in, field by field, and an
    incomplete task without a [scheduledTime] comes out with a
    [scheduledTime] set and every other field as it was.  Nothing else comes
    out.  (Of the engine's sort: that its result holds the elements of the
    array.) *)
Theorem sortTasksByAI_frame (tz : Zone) (sort : Engine) (now : nat -> Date)
    (tasks : list Task) :
  permutes sort ->
  sortedTasks sort tasks ≡ₚ tasks
  /\ length (sortTasksByAI tz sort now tasks) = length tasks
  /\ (forall (i : nat) (task : Task),
        sortedTasks sort tasks !! i = Some task ->
        exists task' : Task,
          sortTasksByAI tz sort now tasks !! i = Some task'
          /\ (completed task = true \/ is_Some (scheduledTime task) -> task' = task)
          /\ (completed task = false /\ scheduledTime task = None ->
              is_Some (scheduledTime task') /\ same_but_scheduledTime task task'))
  /\ (forall task : Task,
        task ∈ tasks ->
        completed task = true \/ is_Some (scheduledTime task) ->
        task ∈ sortTasksByAI tz sort now tasks)
  /\ (forall task : Task,
        task ∈ tasks ->
        completed task = false /\ scheduledTime task = None ->
        exists task' : Task,
          task' ∈ sortTasksByAI tz sort now tasks
          /\ is_Some (scheduledTime task') /\ same_but_scheduledTime task task')
  /\ (forall task' : Task,
        task' ∈ sortTasksByAI tz sort now tasks ->
        exists task : Task,
          task ∈ tasks
          /\ (task' = task
              \/ (completed task = false /\ scheduledTime task = None
                  /\ is_Some (scheduledTime task')
                  /\ same_but_scheduledTime task task'))).
Proof.
  intros Hperm.
  assert (Hpos : forall (i : nat) (task : Task),
             sortedTasks sort tasks !! i = Some task ->
             exists task' : Task,
               sortTasksByAI tz sort now tasks !! i = Some task'
               /\ (completed task = true \/ is_Some (scheduledTime task) -> task' = task)
               /\ (completed task = false /\ scheduledTime task = None ->
                   is_Some (scheduledTime task') /\ same_but_scheduledTime task task')).
  { intros i task Hi. exists (scheduleTask tz now i task).
    split; [rewrite sortTasksByAI_lookup, Hi; reflexivity|]. split.
    - apply scheduleTask_kept.
    - intros [Hc Hs]. rewrite scheduleTask_scheduled by assumption.
      split; [eexists; reflexivity | apply same_but_with_scheduledTime]. }
  split; [apply sortedTasks_Permutation, Hperm|].
  split; [apply sortTasksByAI_length, Hperm|].
  split; [exact Hpos|].
  split; [|split].
  - intros task [i Hi]%(sortedTasks_positions sort tasks Hperm) H.
    destruct (Hpos i task Hi) as (task' & Hout & Hkept & _).
    rewrite (Hkept H) in Hout. eapply list_elem_of_lookup_2, Hout.
  - intros task [i Hi]%(sortedTasks_positions sort tasks Hperm) H.
    destruct (Hpos i task Hi) as (task' & Hout & _ & Hnew).
    exists task'. split; [eapply list_elem_of_lookup_2, Hout | apply Hnew, H].
  - intros task' (i & task & Hi & ->)%elem_of_sortTasksByAI.
    exists task. split; [apply (sortedTasks_positions sort tasks Hperm); eauto|].
    destruct (completed task) eqn:Hc.
    + left. apply scheduleTask_kept. left. exact Hc.
    + destruct (scheduledTime task) as [d0|] eqn:Hs.
      * left. apply scheduleTask_kept. right. rewrite Hs. eexists. reflexivity.
      * right. split; [reflexivity|]. split; [reflexivity|].
        rewrite scheduleTask_scheduled by assumption.
        split; [eexists; reflexivity | apply same_but_with_scheduledTime].
Qed.

(** C3.  The time of day [sortTasksByAI] gives an incomplete task without a
    [scheduledTime] follows from its priority tier alone: the platform is
    asked for 9:00 when the importance is at least 8, for 13:00 when it is 6
    or 7, for 15:00 below, sharp to the millisecond, on some local day; and
    that is the hour, with no minutes, seconds and milliseconds, the
    [scheduledTime] shows, the clock of the zone showing these three times
    on every day. *)
Theorem sortTasksByAI_time_of_day (tz : Zone) (sort : Engine) (now : nat -> Date)
    (tasks : list Task) (i : nat) (task : Task) :
  sortedTasks sort tasks !! i = Some task ->
  completed task = false -> scheduledTime task = None ->
  exists (task' : Task) (d : Date),
    sortTasksByAI tz sort now tasks !! i = Some task'
    /\ scheduledTime task' = Some d
    /\ (exists day : Z,
          getTime d
          = UTC tz (MakeDate day
                      (MakeTime (if 8 <=? importance task then 9
                                 else if 6 <=? importance task then 13 else 15)
                                0 0 0)))
    /\ (showsSlotHours tz ->
        getHours tz d
        = (if 8 <=? importance task then 9
           else if 6 <=? importance task then 13 else 15)
        /\ (8 <= importance task -> getHours tz d = 9)
        /\ (6 <= importance task < 8 -> getHours tz d = 13)
        /\ (importance task < 6 -> getHours tz d = 15)
        /\ getMinutes tz d = 0 /\ getSeconds tz d = 0 /\ getMilliseconds tz d = 0).
Proof.
  intros Hi Hc Hs.
  exists (with_scheduledTime (Some (targetDate tz now i task)) task),
         (targetDate tz now i task).
  split; [apply sortTasksByAI_lookup_open; assumption|].
  split; [reflexivity|].
  split; [eexists; unfold targetDate; apply getTime_setHours|].
  intros Hshows.
  destruct (time_of_day_targetDate tz now i task (showsHour_slotHour tz task Hshows))
    as (Hh & Hm & Hsec & Hms).
  rewrite Hh. unfold slotHour.
  split; [reflexivity|].
  repeat split; try assumption.
  - intros H. destruct (8 <=? importance task) eqn:E; [reflexivity|].
    apply Z.leb_gt in E. lia.
  - intros H. destruct (8 <=? importance task) eqn:E1.
    + apply Z.leb_le in E1. lia.
    + destruct (6 <=? importance task) eqn:E2; [reflexivity|].
      apply Z.leb_gt in E2. lia.
  - intros H. destruct (8 <=? importance task) eqn:E1.
    + apply Z.leb_le in E1. lia.
    + destruct (6 <=? importance task) eqn:E2; [|reflexivity].
      apply Z.leb_le in E2. lia.
Qed.






(** ** The task store *)

Lemma strict_equals_true (s : string) (v : JSValue) :
  strict_equals s v = true <-> v = JSString s.
Proof.
  destruct v; cbn; try (split; intros H; discriminate H).
  rewrite String.eqb_eq. split; [intros ->; reflexivity | intros H; congruence].
Qed.

Lemma strict_equals_false (s : string) (v : JSValue) :
  strict_equals s v = false <-> v <> JSString s.
Proof.
  rewrite <- strict_equals_true. destruct (strict_equals s v); split; congruence.
Qed.

Lemma spread_noUpdates (task : Task) : spread task noUpdates = task.
Proof. destruct task. reflexivity. Qed.

(** An update that holds [scheduledTime] alone sets that property alone. *)
Lemma spread_scheduledTime (task : Task) (d : Date) :
  spread task (scheduledTime_update d) = with_scheduledTime (Some d) task.
Proof. reflexivity. Qed.

Lemma deleteTask_elem_of (id' : string) (tasks : list Task) (task : Task) :
  task ∈ deleteTask id' tasks <-> task ∈ tasks /\ id task <> id'.
Proof.
  unfold deleteTask. rewrite !list_elem_of_In, filter_In, negb_true_iff.
  rewrite String.eqb_neq. reflexivity.
Qed.

(** The slots of the week view are hours of the day. *)
Lemma hours_range (h : Z) : h ∈ hours -> 7 <= h <= 20.
Proof.
  unfold hours. intros (i & -> & Hi)%list_elem_of_fmap.
  apply elem_of_seq in Hi. lia.
Qed.

(** C8.  [addTask] appends exactly one task to the end of the list.  The new
    task is not completed and its [id] is the text of the clock reading,
    whatever [id] and [completed] the argument carries; its other fields are
    the argument's.  The tasks already in the list keep their places and
    their fields.  Two clock readings that differ give ids that differ. *)
Theorem addTask_appends (Date_now : Z) (newTask : Task) (tasks : list Task) :
  exists task : Task,
    addTask Date_now newTask tasks = tasks ++ [task]
    /\ length (addTask Date_now newTask tasks) = S (length tasks)
    /\ (forall (i : nat) (t : Task),
          tasks !! i = Some t -> addTask Date_now newTask tasks !! i = Some t)
    /\ addTask Date_now newTask tasks !! length tasks = Some task
    /\ completed task = false
    /\ id task = Number_toString Date_now
    /\ (forall n : Z, n <> Date_now -> Number_toString n <> id task)
    /\ title task = title newTask /\ description task = description newTask
    /\ importance task = importance newTask
    /\ estimatedTime task = estimatedTime newTask
    /\ dueDate task = dueDate newTask /\ category task = category newTask
    /\ aiSuggested task = aiSuggested newTask
    /\ scheduledTime task = scheduledTime newTask
    /\ (forall (id' : string) (completed' : bool),
          addTask Date_now
            (spread newTask
               (mkPartial (Some id') None None None None None (Some completed')
                          None None None))
            tasks
          = addTask Date_now newTask tasks).
Proof.
  unfold addTask. eexists. split; [reflexivity|].
  split; [rewrite length_app; cbn; lia|].
  split; [intros i t Hi; apply lookup_app_l_Some, Hi|].
  split; [rewrite lookup_app_r by lia; rewrite Nat.sub_diag; reflexivity|].
  cbn. repeat (split; [reflexivity|]).
  split.
  - intros n Hn Heq. apply Hn. unfold Number_toString in Heq.
    eapply (inj pretty), Heq.
  - repeat (split; [reflexivity|]). intros id' completed'. reflexivity.
Qed.

Lemma updateTask_length (id' : JSValue) (updates : PartialTask) (tasks : list Task) :
  length (updateTask id' updates tasks) = length tasks.
Proof. unfold updateTask. apply length_map. Qed.

Lemma updateTask_lookup (id' : JSValue) (updates : PartialTask) (tasks : list Task)
    (i : nat) :
  updateTask id' updates tasks !! i
  = (fun task => if strict_equals (id task) id' then spread task updates else task)
    <$> tasks !! i.
Proof. unfold updateTask. apply (list_lookup_fmap _ tasks i). Qed.

Lemma updateTask_lookup_other (id' : JSValue) (updates : PartialTask)
    (tasks : list Task) (i : nat) (task : Task) :
  tasks !! i = Some task -> id' <> JSString (id task) ->
  updateTask id' updates tasks !! i = Some task.
Proof.
  intros Hi Hne. rewrite updateTask_lookup, Hi. cbn.
  apply strict_equals_false in Hne. rewrite Hne. reflexivity.
Qed.

Lemma updateTask_lookup_same (id' : JSValue) (updates : PartialTask)
    (tasks : list Task) (i : nat) (task : Task) :
  tasks !! i = Some task -> id' = JSString (id task) ->
  updateTask id' updates tasks !! i = Some (spread task updates).
Proof.
  intros Hi Heq. rewrite updateTask_lookup, Hi. cbn.
  apply strict_equals_true in Heq. rewrite Heq. reflexivity.
Qed.

(** [{ ...task, ...updates }], property by property: the update's value
    where the update holds the property, the task's otherwise. *)
Lemma spread_properties (task : Task) (updates : PartialTask) :
  let task' := spread task updates in
  id task' = default (id task) (p_id updates)
  /\ title task' = default (title task) (p_title updates)
  /\ description task' = default (description task) (p_description updates)
  /\ importance task' = default (importance task) (p_importance updates)
  /\ estimatedTime task' = default (estimatedTime task) (p_estimatedTime updates)
  /\ dueDate task' = default (dueDate task) (p_dueDate updates)
  /\ completed task' = default (completed task) (p_completed updates)
  /\ category task' = default (category task) (p_category updates)
  /\ aiSuggested task' = default (aiSuggested task) (p_aiSuggested updates)
  /\ scheduledTime task' = default (scheduledTime task) (p_scheduledTime updates).
Proof. cbn. repeat split. Qed.

(** C9.  [updateTask] keeps the length of the list and every task at its
    position.  A task whose [id] is not the given one is left as it is;
    a task whose [id] is the given one has the properties the update holds
    overwritten, and no other. *)
Theorem updateTask_frame (id' : JSValue) (updates : PartialTask) (tasks : list Task) :
  length (updateTask id' updates tasks) = length tasks
  /\ forall (i : nat) (task : Task),
       tasks !! i = Some task ->
       (id' <> JSString (id task) ->
        updateTask id' updates tasks !! i = Some task)
       /\ (id' = JSString (id task) ->
           exists task' : Task,
             updateTask id' updates tasks !! i = Some task'
             /\ task' = spread task updates
             /\ (updates = noUpdates -> task' = task)
             /\ (forall v, p_id updates = Some v -> id task' = v)
             /\ (p_id updates = None -> id task' = id task)
             /\ (forall v, p_title updates = Some v -> title task' = v)
             /\ (p_title updates = None -> title task' = title task)
             /\ (forall v, p_description updates = Some v -> description task' = v)
             /\ (p_description updates = None -> description task' = description task)
             /\ (forall v, p_importance updates = Some v -> importance task' = v)
             /\ (p_importance updates = None -> importance task' = importance task)
             /\ (forall v, p_estimatedTime updates = Some v -> estimatedTime task' = v)
             /\ (p_estimatedTime updates = None ->
                 estimatedTime task' = estimatedTime task)
             /\ (forall v, p_dueDate updates = Some v -> dueDate task' = v)
             /\ (p_dueDate updates = None -> dueDate task' = dueDate task)
             /\ (forall v, p_completed updates = Some v -> completed task' = v)
             /\ (p_completed updates = None -> completed task' = completed task)
             /\ (forall v, p_category updates = Some v -> category task' = v)
             /\ (p_category updates = None -> category task' = category task)
             /\ (forall v, p_aiSuggested updates = Some v -> aiSuggested task' = v)
             /\ (p_aiSuggested updates = None -> aiSuggested task' = aiSuggested task)
             /\ (forall v, p_scheduledTime updates = Some v -> scheduledTime task' = v)
             /\ (p_scheduledTime updates = None ->
                 scheduledTime task' = scheduledTime task)).
Proof.
  split; [apply updateTask_length|].
  intros i task Hi. split.
  - apply updateTask_lookup_other, Hi.
  - intros Heq. exists (spread task updates).
    split; [apply updateTask_lookup_same; assumption|].
    split; [reflexivity|].
    split; [intros ->; apply spread_noUpdates|].
    cbn. repeat split; try (intros v ->; reflexivity); intros ->; reflexivity.
Qed.

(** ** Drag and drop *)

Lemma handleDrop_parsed_id (tz : Zone) (JSON_parse : string -> option JSValue)
    (payload : string) (date : Date) (hour : option Z) :
  handleDrop tz JSON_parse payload date hour
  = (fun id' =>
       (id', scheduledTime_update
               (match hour with
                | Some h => setHours tz (mkDate (getTime date)) h 0 0 0
                | None => mkDate (getTime date)
                end)))
    <$> parsed_id JSON_parse payload.
Proof.
  unfold handleDrop, parsed_id.
  destruct (JSON_parse payload) as [taskData|]; cbn; [|reflexivity].
  destruct (property_id taskData); reflexivity.
Qed.

(** What does not parse: text that is not JSON, and the JSON [null]. *)
Lemma parsed_id_None (JSON_parse : string -> option JSValue) (payload : string) :
  parsed_id JSON_parse payload = None
  <-> JSON_parse payload = None
      \/ JSON_parse payload = Some JSNull
      \/ JSON_parse payload = Some JSUndefined.
Proof.
  unfold parsed_id. destruct (JSON_parse payload) as [v|]; cbn.
  - destruct v; cbn; split; intros H;
      try discriminate H; try (destruct H as [H | [H | H]]; discriminate H); auto.
  - split; auto.
Qed.

(** C6.  A drop whose payload does not parse as a task record (reading it
    throws) issues no update and leaves the task list as it is.  A drop
    whose payload parses issues one update, for the payload's [id], holding
    [scheduledTime] alone: every task keeps its place, the tasks with that
    [id] get the new [scheduledTime] and keep every other field, the others
    are untouched.  The new [scheduledTime] is the slot's date when no hour
    is given, and otherwise what the platform makes of the slot's hour,
    sharp, on the local day of the slot's date: that day at that hour, no
    minutes, seconds or milliseconds, whenever the clock of the zone shows
    that time. *)
Theorem handleDrop_effect (tz : Zone) (JSON_parse : string -> option JSValue)
    (payload : string) (date : Date) (hour : option Z) (tasks : list Task) :
  (parsed_id JSON_parse payload = None ->
   handleDrop tz JSON_parse payload date hour = None
   /\ dropTask tz JSON_parse payload date hour tasks = tasks)
  /\ (forall id' : JSValue,
        parsed_id JSON_parse payload = Some id' ->
        exists scheduledTime' : Date,
          handleDrop tz JSON_parse payload date hour
          = Some (id', scheduledTime_update scheduledTime')
          /\ (forall h : Z,
                hour = Some h ->
                getTime scheduledTime'
                = UTC tz (MakeDate (localDay tz date) (MakeTime h 0 0 0))
                /\ (0 <= h < 24 ->
                    regular tz (MakeDate (localDay tz date) (MakeTime h 0 0 0)) ->
                    localDay tz scheduledTime' = localDay tz date
                    /\ getHours tz scheduledTime' = h
                    /\ getMinutes tz scheduledTime' = 0
                    /\ getSeconds tz scheduledTime' = 0
                    /\ getMilliseconds tz scheduledTime' = 0))
          /\ (hour = None -> scheduledTime' = date)
          /\ length (dropTask tz JSON_parse payload date hour tasks) = length tasks
          /\ forall (i : nat) (task : Task),
               tasks !! i = Some task ->
               (id' = JSString (id task) ->
                exists task' : Task,
                  dropTask tz JSON_parse payload date hour tasks !! i = Some task'
                  /\ scheduledTime task' = Some scheduledTime'
                  /\ same_but_scheduledTime task task')
               /\ (id' <> JSString (id task) ->
                   dropTask tz JSON_parse payload date hour tasks !! i = Some task)).
Proof.
  unfold dropTask. rewrite handleDrop_parsed_id. split.
  - intros ->. split; reflexivity.
  - intros id' ->. cbn. eexists. split; [reflexivity|].
    split; [|split; [|split]].
    + intros h ->. destruct date as [t]. cbn [getTime].
      split; [reflexivity|]. intros Hh Hregular.
      apply (whole_hour_date tz _ _ _ Hh). apply LocalTime_setHours, Hregular.
    + intros ->. destruct date. reflexivity.
    + apply updateTask_length.
    + intros i task Hi. split.
      * intros E. eexists. split; [apply (updateTask_lookup_same _ _ _ _ _ Hi E)|].
        split; [reflexivity | repeat split].
      * apply updateTask_lookup_other, Hi.
Qed.

(** Dropping what [handleDragStart] stored for [task], when the parser
    reads back what was written: the tasks with the [id] of [task] move to
    the slot. *)
Lemma drag_then_drop (tz : Zone) (JSON_parse : string -> option JSValue)
    (JSON_stringify : JSValue -> string) (toISOString : Date -> string)
    (task : Task) (date : Date) (h : Z) (tasks : list Task) :
  JSON_parse (handleDragStart JSON_stringify toISOString task)
  = Some (Task_toJSON toISOString task) ->
  dropTask tz JSON_parse (handleDragStart JSON_stringify toISOString task)
           date (Some h) tasks
  = map (fun t => if String.eqb (id t) (id task)
                  then with_scheduledTime (Some (setHours tz date h 0 0 0)) t
                  else t)
        tasks.
Proof.
  intros Hparse. unfold dropTask, handleDrop. rewrite Hparse. cbn.
  destruct date as [t]. reflexivity.
Qed.

(** * The statements at work on the sample data *)

(** The backlog on the morning of 22 January 2025: the completed task stays
    as it is at the head of the list, the open tasks are scheduled (day
    20110 is 22 January 2025). *)
Example sortTasksByAI_backlog :
  map (fun task => (id task,
                    (fun d => (localDay zone d, getHours zone d)) <$> scheduledTime task))
      (sortTasksByAI zone stableSort (morning zone) backlog)
  = [("e", None); ("a", Some (20110, 9)); ("b", Some (20110, 9));
     ("d", Some (20110, 13)); ("c", Some (20111, 15))].
Proof. vm_compute. reflexivity. Qed.

(** The tasks the page starts with are all scheduled and already in order:
    sorting them changes nothing. *)
Example sortTasksByAI_initialTasks :
  sortTasksByAI zone stableSort (morning zone) (initialTasks zone) = initialTasks zone.
Proof. vm_compute. reflexivity. Qed.

(** On a list the comparator is not consistent on, engines differ: the
    three sample engines on four tasks of one importance, the third without
    a due date. *)
Example engines_differ :
  id <$> sortedTasks stableSort levelFour = ["t1"; "t0"; "t2"; "t3"]
  /\ id <$> sortedTasks mergeSort levelFour = ["t1"; "t0"; "t2"; "t3"]
  /\ id <$> sortedTasks binaryInsertionSort levelFour = ["t1"; "t3"; "t0"; "t2"].
Proof. vm_compute. repeat split; reflexivity. Qed.

(** Across the day the clock is put forward: a task of importance 1 due on
    Monday 10 March 2025, 0:00, is scheduled five days before at 15:00,
    which is 20:00 UTC on 5 March; in a zone fixed at five hours behind UTC
    the due date falls on 9 March and the task is scheduled a day
    earlier. *)
Example sortTasksByAI_spring_forward :
  (fun task => (fun d => (getTime d, getHours zone d,
                          localDay zone (Date_of zone 2025 2 10 0 0) - localDay zone d))
               <$> scheduledTime task)
    <$> sortTasksByAI zone stableSort (morning zone) [taskSpring]
  = [Some (1741204800000, 15, 5)]
  /\ (fun task => getTime <$> scheduledTime task)
       <$> sortTasksByAI (fixedZone (-18000000)) stableSort (morning zone) [taskSpring]
     = [Some 1741118400000].
Proof. vm_compute. split; reflexivity. Qed.

(** The hour the clock skips: on 9 March 2025, [setHours(2, 0, 0, 0)] gives
    3:00. *)
Example setHours_skipped_hour :
  let d := setHours zone (Date_of zone 2025 2 9 0 0) 2 0 0 0 in
  getHours zone d = 3 /\ getMinutes zone d = 0
  /\ localDay zone d = localDay zone (Date_of zone 2025 2 9 0 0).
Proof. vm_compute. repeat split; reflexivity. Qed.

Lemma unmixed_backlog : unmixed backlog.
Proof.
  intros a b Ha Hb. unfold backlog in Ha, Hb.
  repeat (apply elem_of_cons in Ha as [-> | Ha]); [..|inversion Ha];
    repeat (apply elem_of_cons in Hb as [-> | Hb]); try (inversion Hb; fail);
    cbn; intros; try reflexivity; discriminate.
Qed.

(** C1 on the backlog: the completed task is kept, [a] is scheduled. *)
Lemma sortTasksByAI_frame_witness :
  sortTasksByAI zone stableSort (morning zone) backlog !! 0%nat = Some taskDone
  /\ exists task' : Task,
       sortTasksByAI zone stableSort (morning zone) backlog !! 1%nat = Some task'
       /\ is_Some (scheduledTime task') /\ same_but_scheduledTime taskA task'.
Proof.
  destruct (sortTasksByAI_frame zone stableSort (morning zone) backlog stableSort_permutes)
    as (_ & _ & H & _).
  split.
  - destruct (H 0%nat taskDone eq_refl) as (task' & Hout & Hkept & _).
    rewrite Hout. f_equal. apply Hkept. left. reflexivity.
  - destruct (H 1%nat taskA eq_refl) as (task' & Hout & _ & Hnew).
    exists task'. split; [exact Hout|]. apply Hnew. split; reflexivity.
Defined.



(** C3 on the backlog: [d], of importance 7, is scheduled at 13:00 sharp. *)
Lemma sortTasksByAI_time_of_day_witness :
  exists (task' : Task) (d : Date),
    sortTasksByAI zone stableSort (morning zone) backlog !! 3%nat = Some task'
    /\ scheduledTime task' = Some d
    /\ getHours zone d = 13 /\ getMinutes zone d = 0
    /\ getSeconds zone d = 0 /\ getMilliseconds zone d = 0.
Proof.
  destruct (sortTasksByAI_time_of_day zone stableSort (morning zone) backlog 3 taskD
              eq_refl eq_refl eq_refl)
    as (task' & d & Hout & Hd & _ & Hread).
  destruct (Hread zone_showsSlotHours) as (Hh & _ & _ & _ & Hm & Hs & Hms).
  exists task', d. repeat split; assumption.
Defined.






(** With the sort by runs and binary insertion the second run changes
    nothing on these six tasks: whether it does is up to the engine. *)
Example sortTasksByAI_twice_binaryInsertionSort :
  sortTasksByAI zone binaryInsertionSort (morning zone)
    (sortTasksByAI zone binaryInsertionSort (morning zone) levelSix)
  = sortTasksByAI zone binaryInsertionSort (morning zone) levelSix.
Proof. vm_compute. reflexivity. Qed.

Lemma precedes_trans_NoDup {A : Type} (l : list A) (x y z : A) :
  NoDup l -> precedes l x y -> precedes l y z -> precedes l x z.
Proof.
  intros Hnd (i & j & Hij & Hi & Hj) (j' & k & Hjk & Hj' & Hk).
  assert (j = j') as <- by (eapply NoDup_lookup; eassumption).
  exists i, k. split; [lia|]. split; assumption.
Qed.

Lemma NoDup_mixedLevel : NoDup mixedLevel.
Proof.
  unfold mixedLevel. rewrite !NoDup_cons, !elem_of_cons, !elem_of_nil.
  split; [|split; [|split; [|apply NoDup_nil_2]]]; intros H;
    repeat (destruct H as [H|H]; [discriminate H|]); exact H.
Qed.


(** C8: adding a task that arrives marked completed to the tasks the page
    starts with. *)
Lemma addTask_appends_witness :
  exists task : Task,
    addTask 1737552600000 taskDone (initialTasks zone) = initialTasks zone ++ [task]
    /\ completed task = false
    /\ id task = "1737552600000".
Proof.
  destruct (addTask_appends 1737552600000 taskDone (initialTasks zone))
    as (task & Happ & _ & _ & _ & Hc & Hid & _).
  exists task. split; [exact Happ|]. split; [exact Hc | exact Hid].
Defined.

(** C9: rescheduling the task with id 2 among the tasks the page starts
    with. *)
Lemma updateTask_frame_witness :
  length (updateTask (JSString "2") (scheduledTime_update (Date_of zone 2025 0 26 10 0))
            (initialTasks zone)) = 3%nat
  /\ updateTask (JSString "2") (scheduledTime_update (Date_of zone 2025 0 26 10 0))
       (initialTasks zone) !! 0%nat
     = initialTasks zone !! 0%nat
  /\ (with_scheduledTime (Some (Date_of zone 2025 0 26 10 0)) <$> initialTasks zone !! 1%nat)
     = updateTask (JSString "2") (scheduledTime_update (Date_of zone 2025 0 26 10 0))
         (initialTasks zone) !! 1%nat.
Proof.
  destruct (updateTask_frame (JSString "2")
              (scheduledTime_update (Date_of zone 2025 0 26 10 0)) (initialTasks zone))
    as [Hlen H].
  split; [exact Hlen|]. split.
  - destruct (initialTasks zone !! 0%nat) as [task|] eqn:E; [|discriminate E].
    apply (H 0%nat task E).
    vm_compute in E. injection E as <-. discriminate.
  - destruct (initialTasks zone !! 1%nat) as [task|] eqn:E; [|discriminate E].
    destruct (H 1%nat task E) as [_ H2].
    destruct H2 as (task' & Hl & -> & _).
    + vm_compute in E. injection E as <-. reflexivity.
    + rewrite Hl. reflexivity.
Defined.

(** C6: a drop of text that is not JSON, and a drop of an object that holds
    the id 1, on the slot of 26 January at 10. *)
Lemma handleDrop_effect_witness :
  (handleDrop zone sampleParse "not json" (Date_of zone 2025 0 26 0 0) (Some 10) = None
   /\ dropTask zone sampleParse "not json" (Date_of zone 2025 0 26 0 0) (Some 10)
        (initialTasks zone)
      = initialTasks zone)
  /\ exists scheduledTime' : Date,
       handleDrop zone sampleParse textIdOnly (Date_of zone 2025 0 26 0 0) (Some 10)
       = Some (JSString "1", scheduledTime_update scheduledTime')
       /\ localDay zone scheduledTime' = localDay zone (Date_of zone 2025 0 26 0 0)
       /\ getHours zone scheduledTime' = 10.
Proof.
  split.
  - apply (handleDrop_effect zone sampleParse "not json" (Date_of zone 2025 0 26 0 0)
             (Some 10) (initialTasks zone)).
    reflexivity.
  - destruct (handleDrop_effect zone sampleParse textIdOnly (Date_of zone 2025 0 26 0 0)
                (Some 10) (initialTasks zone)) as [_ H].
    destruct (H (JSString "1") eq_refl) as (st & Hcall & Hslot & _).
    exists st. split; [exact Hcall|].
    destruct (Hslot 10 eq_refl) as [_ Hread].
    destruct (Hread ltac:(lia) (zone_showsHour 10 ltac:(lia) ltac:(lia) _))
      as (Hday & Hhour & _).
    split; assumption.
Defined.

(** ** Further runs on the sample data *)

(** [new Date(2025, 0, 24)] in the zone of the samples: 24 January 2025,
    day 20112 since the epoch, five hours after midnight UTC. *)
Example Date_of_sample :
  let d := Date_of zone 2025 0 24 0 0 in
  getTime d = 1737694800000
  /\ YearFromTime (LocalTime zone (getTime d)) = 2025
  /\ MonthFromTime (LocalTime zone (getTime d)) = 0
  /\ getDate zone d = 24 /\ getHours zone d = 0 /\ localDay zone d = 20112.
Proof. vm_compute. repeat split; reflexivity. Qed.

(** A year from 0 to 99 stands for 1900 to 1999: [new Date(25, 0, 24)] is
    24 January 1925. *)
Example Date_of_short_year :
  YearFromTime (LocalTime zone (getTime (Date_of zone 25 0 24 0 0))) = 1925.
Proof. vm_compute. reflexivity. Qed.

(** Two tasks added at one clock reading get one id: the id is derived from
    the clock, it is not checked against the ids in the list. *)
Example addTask_same_reading :
  id <$> addTask 1737552600000 taskB (addTask 1737552600000 taskA [])
  = ["1737552600000"; "1737552600000"].
Proof. vm_compute. reflexivity. Qed.

(** A payload that holds an id and nothing else of a task is read as a task
    all the same: the drop reschedules the task with that id. *)
Example dropTask_id_only :
  scheduledTime
    <$> dropTask zone sampleParse textIdOnly (Date_of zone 2025 0 26 0 0) (Some 10)
          (initialTasks zone) !! 0%nat
  = Some (Some (Date_of zone 2025 0 26 10 0)).
Proof. vm_compute. reflexivity. Qed.

(** A drop on the hour the clock skips, 2:00 on 9 March 2025, puts the task
    at 3:00. *)
Example dropTask_skipped_hour :
  (fun task => getHours zone <$> scheduledTime task)
    <$> dropTask zone sampleParse textIdOnly (Date_of zone 2025 2 9 0 0) (Some 2)
          (initialTasks zone) !! 0%nat
  = Some (Some 3).
Proof. vm_compute. reflexivity. Qed.

(** A payload that is a number parses and has no [id]: the update is issued
    for [undefined] and matches no task. *)
Example dropTask_number :
  fst <$> handleDrop zone sampleParse "42" (Date_of zone 2025 0 26 0 0) (Some 10)
  = Some JSUndefined
  /\ dropTask zone sampleParse "42" (Date_of zone 2025 0 26 0 0) (Some 10)
       (initialTasks zone)
     = initialTasks zone.
Proof. vm_compute. split; reflexivity. Qed.

(** The JSON [null] parses, and reading its [id] throws: nothing is issued. *)
Example dropTask_null :
  handleDrop zone sampleParse "null" (Date_of zone 2025 0 26 0 0) (Some 10) = None.
Proof. vm_compute. reflexivity. Qed.

(** Clicking a task toggles [completed] and nothing else. *)
Example toggleCompleted_sample :
  completed <$> toggleCompleted taskA [taskC; taskA; taskB] = [false; true; false].
Proof. vm_compute. reflexivity. Qed.

(** * Further properties *)

(** ** The task store *)

Lemma deleteTask_cons (id' : string) (task : Task) (tasks : list Task) :
  deleteTask id' (task :: tasks)
  = if String.eqb (id task) id' then deleteTask id' tasks
    else task :: deleteTask id' tasks.
Proof. unfold deleteTask. cbn. destruct (String.eqb (id task) id'); reflexivity. Qed.

Lemma deleteTask_absent (id' : string) (tasks : list Task) :
  (forall task, task ∈ tasks -> id task <> id') -> deleteTask id' tasks = tasks.
Proof.
  induction tasks as [|task tasks IH]; intros H; [reflexivity|].
  rewrite deleteTask_cons.
  destruct (String.eqb_spec (id task) id') as [E|_].
  - exfalso. apply (H task); [left|exact E].
  - f_equal. apply IH. intros t Ht. apply H. right. exact Ht.
Qed.

(** X1.  [deleteTask] removes the tasks that have the given id, all of
    them, and nothing else: what is left is the other tasks, each as often
    as it was in the list, in the order and with the fields they had.
    Deleting again, or deleting an id no task has, changes nothing. *)
Theorem deleteTask_removes (id' : string) (tasks : list Task) :
  deleteTask id' tasks `sublist_of` tasks
  /\ (forall task : Task,
        task ∈ deleteTask id' tasks <-> task ∈ tasks /\ id task <> id')
  /\ (exists removed : list Task,
        (forall task : Task, task ∈ removed -> id task = id')
        /\ deleteTask id' tasks ++ removed ≡ₚ tasks)
  /\ deleteTask id' (deleteTask id' tasks) = deleteTask id' tasks
  /\ ((forall task, task ∈ tasks -> id task <> id') -> deleteTask id' tasks = tasks).
Proof.
  split.
  { induction tasks as [|task tasks IH]; [constructor|].
    rewrite deleteTask_cons. destruct (String.eqb (id task) id').
    - apply sublist_cons, IH.
    - apply sublist_skip, IH. }
  split; [intros task; apply deleteTask_elem_of|].
  split.
  { induction tasks as [|task tasks (removed & Hid & Hperm)]; [exists []; split;
      [intros task Ht; inversion Ht | reflexivity]|].
    rewrite deleteTask_cons. destruct (String.eqb_spec (id task) id') as [E|_].
    - exists (task :: removed). split.
      + intros t [-> | Ht]%elem_of_cons; [exact E | apply Hid, Ht].
      + rewrite <- Permutation_middle, Hperm. reflexivity.
    - exists removed. split; [exact Hid|]. cbn. rewrite Hperm. reflexivity. }
  split; [|apply deleteTask_absent].
  apply deleteTask_absent. intros task Ht. apply deleteTask_elem_of in Ht. tauto.
Qed.

Lemma deleteTask_app (id' : string) (l1 l2 : list Task) :
  deleteTask id' (l1 ++ l2) = deleteTask id' l1 ++ deleteTask id' l2.
Proof. unfold deleteTask. apply List.filter_app. Qed.

(** X2.  Deleting the id [addTask] has just given takes the new task out
    again.  The list is back as it was when no task had that id before;
    when one had (a task added at the same clock reading), that task goes
    too. *)
Theorem addTask_then_deleteTask (Date_now : Z) (newTask : Task) (tasks : list Task) :
  deleteTask (Number_toString Date_now) (addTask Date_now newTask tasks)
  = deleteTask (Number_toString Date_now) tasks
  /\ ((forall task, task ∈ tasks -> id task <> Number_toString Date_now) ->
      deleteTask (Number_toString Date_now) (addTask Date_now newTask tasks) = tasks).
Proof.
  assert (H : deleteTask (Number_toString Date_now) (addTask Date_now newTask tasks)
              = deleteTask (Number_toString Date_now) tasks).
  { unfold addTask. rewrite deleteTask_app, deleteTask_cons. cbn [id].
    rewrite String.eqb_refl. apply app_nil_r. }
  split; [exact H|]. intros Hfresh. rewrite H. apply deleteTask_absent, Hfresh.
Qed.

Lemma updateTask_cons (id' : JSValue) (updates : PartialTask) (task : Task)
    (tasks : list Task) :
  updateTask id' updates (task :: tasks)
  = (if strict_equals (id task) id' then spread task updates else task)
    :: updateTask id' updates tasks.
Proof. reflexivity. Qed.

(** X3.  An update for an id that no task of the list has, a value that is
    no string among them, changes nothing. *)
Theorem updateTask_absent (id' : JSValue) (updates : PartialTask) (tasks : list Task) :
  (forall task, task ∈ tasks -> id' <> JSString (id task)) ->
  updateTask id' updates tasks = tasks.
Proof.
  induction tasks as [|task tasks IH]; intros H; [reflexivity|].
  rewrite updateTask_cons.
  assert (E : strict_equals (id task) id' = false)
    by (apply strict_equals_false, H; left).
  rewrite E. f_equal. apply IH. intros t Ht. apply H. right. exact Ht.
Qed.

Lemma id_spread (task : Task) (updates : PartialTask) :
  p_id updates = None -> id (spread task updates) = id task.
Proof. intros H. cbn. rewrite H. reflexivity. Qed.

Lemma spread_spread (task : Task) (first second : PartialTask) :
  spread (spread task first) second = spread task (merge_updates first second).
Proof.
  unfold spread, merge_updates, later. cbn.
  destruct second as [a b c d e f g h i j]; cbn.
  destruct a, b, c, d, e, f, g, h, i, j; reflexivity.
Qed.

(** X4.  Two updates of one id, the first of which holds no [id], amount
    to the single update that holds the properties of both, the second's
    value where both hold one: the last write wins. *)
Theorem updateTask_twice (id' : JSValue) (first second : PartialTask)
    (tasks : list Task) :
  p_id first = None ->
  updateTask id' second (updateTask id' first tasks)
  = updateTask id' (merge_updates first second) tasks.
Proof.
  intros Hid. induction tasks as [|task tasks IH]; [reflexivity|].
  rewrite !updateTask_cons, IH. f_equal.
  destruct (strict_equals (id task) id') eqn:E.
  - rewrite (id_spread task first Hid), E. apply spread_spread.
  - rewrite E. reflexivity.
Qed.

(** X5.  Updates of two different ids, neither holding an [id], can be made
    in either order. *)
Theorem updateTask_commute (id1 id2 : JSValue) (updates1 updates2 : PartialTask)
    (tasks : list Task) :
  id1 <> id2 -> p_id updates1 = None -> p_id updates2 = None ->
  updateTask id1 updates1 (updateTask id2 updates2 tasks)
  = updateTask id2 updates2 (updateTask id1 updates1 tasks).
Proof.
  intros Hne H1 H2. induction tasks as [|task tasks IH]; [reflexivity|].
  rewrite !updateTask_cons, IH. f_equal.
  destruct (strict_equals (id task) id1) eqn:E1;
    destruct (strict_equals (id task) id2) eqn:E2;
    rewrite ?(id_spread _ _ H1), ?(id_spread _ _ H2), ?E1, ?E2; try reflexivity.
  apply strict_equals_true in E1, E2. congruence.
Qed.

Lemma NoDup_ids_eq (tasks : list Task) (a b : Task) :
  NoDup (id <$> tasks) -> a ∈ tasks -> b ∈ tasks -> id a = id b -> a = b.
Proof.
  intros Hnd [i Hi]%list_elem_of_lookup_1 [j Hj]%list_elem_of_lookup_1 Hid.
  assert (i = j) as ->.
  { eapply (NoDup_lookup (id <$> tasks)); [exact Hnd| |].
    - rewrite list_lookup_fmap, Hi. reflexivity.
    - rewrite list_lookup_fmap, Hj. cbn. rewrite Hid. reflexivity. }
  congruence.
Qed.

Lemma clicked_clicked (task : Task) : clicked (clicked task) = task.
Proof. destruct task as [a b c d e f g h i j]. destruct g; reflexivity. Qed.

(** X6.  With ids that are all different, a click on a task of the list
    toggles [completed] of that task and changes nothing else, and a second
    click on it puts the list back as it was. *)
Theorem toggleCompleted_twice (task : Task) (tasks : list Task) :
  NoDup (id <$> tasks) -> task ∈ tasks ->
  (forall (i : nat) (t : Task),
     tasks !! i = Some t ->
     (t = task -> toggleCompleted task tasks !! i = Some (clicked task))
     /\ (t <> task -> toggleCompleted task tasks !! i = Some t))
  /\ completed (clicked task) = negb (completed task)
  /\ spread (clicked task)
       (mkPartial None None None None None None (Some (completed task)) None None None)
     = task
  /\ toggleCompleted (clicked task) (toggleCompleted task tasks) = tasks.
Proof.
  intros Hnd Hin.
  assert (Hsame : forall t, t ∈ tasks ->
            strict_equals (id t) (JSString (id task)) = true <-> t = task).
  { intros t Ht. rewrite strict_equals_true. split.
    - intros E. injection E as E. apply (NoDup_ids_eq tasks); auto.
    - intros ->. reflexivity. }
  split; [|split; [reflexivity|split]].
  - intros i t Hi. unfold toggleCompleted. rewrite updateTask_lookup, Hi.
    cbn -[strict_equals spread].
    assert (Ht : t ∈ tasks) by (eapply list_elem_of_lookup_2, Hi).
    split.
    + intros ->. rewrite (proj2 (Hsame task Hin) eq_refl). reflexivity.
    + intros Hne. destruct (strict_equals (id t) (JSString (id task))) eqn:E;
        [|reflexivity].
      exfalso. apply Hne, Hsame; assumption.
  - destruct task. reflexivity.
  - unfold toggleCompleted, updateTask. rewrite map_map.
    transitivity (map (fun t => t) tasks); [|apply map_id].
    apply map_ext_in. intros t Ht%list_elem_of_In.
    destruct (strict_equals (id t) (JSString (id task))) eqn:E.
    + apply Hsame in E; [|exact Ht]. subst t.
      change (id (spread task _)) with (id task).
      change (id (clicked task)) with (id task).
      rewrite (proj2 (Hsame task Hin) eq_refl).
      apply clicked_clicked.
    + change (id (clicked task)) with (id task). rewrite E. reflexivity.
Qed.

(** What the scheduling callback leaves alone survives [sortTasksByAI] up to
    the order of the sorted list. *)
Lemma fmap_sortTasksByAI {B : Type} (g : Task -> B) (tz : Zone) (sort : Engine)
    (now : nat -> Date) (tasks : list Task) :
  (forall i task, g (scheduleTask tz now i task) = g task) ->
  g <$> sortTasksByAI tz sort now tasks = g <$> sortedTasks sort tasks.
Proof.
  intros Hg. unfold sortTasksByAI. rewrite fmap_imap.
  rewrite (imap_ext _ (fun _ => g)) by (intros i t _; apply Hg).
  apply imap_const.
Qed.

Lemma id_scheduleTask (tz : Zone) (now : nat -> Date) (i : nat) (task : Task) :
  id (scheduleTask tz now i task) = id task.
Proof.
  unfold scheduleTask.
  destruct (completed task || truthy (scheduledTime task)); reflexivity.
Qed.

Lemma ids_updateTask (id' : JSValue) (updates : PartialTask) (tasks : list Task) :
  p_id updates = None -> id <$> updateTask id' updates tasks = id <$> tasks.
Proof.
  intros H. induction tasks as [|task tasks IH]; [reflexivity|].
  rewrite updateTask_cons, !fmap_cons, IH. f_equal.
  destruct (strict_equals (id task) id'); [apply id_spread, H|reflexivity].
Qed.

Lemma ids_dropTask (tz : Zone) (JSON_parse : string -> option JSValue) (payload : string)
    (date : Date) (hour : option Z) (tasks : list Task) :
  id <$> dropTask tz JSON_parse payload date hour tasks = id <$> tasks.
Proof.
  unfold dropTask. rewrite handleDrop_parsed_id.
  destruct (parsed_id JSON_parse payload); cbn; [|reflexivity].
  apply ids_updateTask. reflexivity.
Qed.

Lemma ids_deleteTask (id' : string) (tasks : list Task) :
  id <$> deleteTask id' tasks `sublist_of` id <$> tasks.
Proof.
  induction tasks as [|task tasks IH]; [constructor|].
  rewrite deleteTask_cons. destruct (String.eqb (id task) id'); rewrite !fmap_cons.
  - apply sublist_cons, IH.
  - apply sublist_skip, IH.
Qed.

Lemma NoDup_ids_perform (tz : Zone) (sort : Engine) (JSON_parse : string -> option JSValue)
    (tasks : list Task) (action : Action) :
  permutes sort ->
  NoDup (id <$> tasks) -> keeps_ids_apart tasks action ->
  NoDup (id <$> perform tz sort JSON_parse tasks action).
Proof.
  intros Hperm Hnd Hok.
  destruct action as [Date_now newTask|id' updates|id'|now|payload date hour];
    cbn [perform keeps_ids_apart] in *.
  - unfold addTask. rewrite fmap_app. cbn.
    apply NoDup_app. split; [exact Hnd|]. split; [|apply NoDup_singleton].
    intros s Hs Hs'. apply list_elem_of_singleton in Hs'. subst s. auto.
  - rewrite ids_updateTask by exact Hok. exact Hnd.
  - eapply sublist_NoDup; [exact Hnd|apply ids_deleteTask].
  - rewrite (fmap_sortTasksByAI id) by apply id_scheduleTask.
    rewrite (sortedTasks_Permutation sort tasks Hperm). exact Hnd.
  - rewrite ids_dropTask. exact Hnd.
Qed.

(** X7.  The ids of the list stay all different through any session of
    additions, updates, deletions, sorts and drops, as long as no task is
    added at a clock reading whose text is already an id and no update holds
    an [id].  (Of the engine's sort: that its result holds the elements of
    the array.) *)
Theorem ids_stay_unique (tz : Zone) (sort : Engine) (JSON_parse : string -> option JSValue)
    (tasks : list Task) (actions : list Action) :
  permutes sort ->
  NoDup (id <$> tasks) ->
  session_keeps_ids_apart tz sort JSON_parse tasks actions ->
  NoDup (id <$> run tz sort JSON_parse tasks actions).
Proof.
  intros Hperm. unfold run. revert tasks.
  induction actions as [|action actions IH]; intros tasks Hnd Hok; [exact Hnd|].
  destruct Hok as [Hfirst Hrest]. cbn [fold_left].
  apply IH; [|exact Hrest]. apply NoDup_ids_perform; assumption.
Qed.

(** ** More on [sortTasksByAI] *)

Lemma unschedule_scheduleTask (tz : Zone) (now : nat -> Date) (i : nat) (task : Task) :
  with_scheduledTime None (scheduleTask tz now i task) = with_scheduledTime None task.
Proof.
  unfold scheduleTask.
  destruct (completed task || truthy (scheduledTime task)); reflexivity.
Qed.

Lemma importance_scheduleTask (tz : Zone) (now : nat -> Date) (i : nat) (task : Task) :
  importance (scheduleTask tz now i task) = importance task.
Proof.
  unfold scheduleTask.
  destruct (completed task || truthy (scheduledTime task)); reflexivity.
Qed.

(** The comparator never contradicts the importance. *)
Lemma compareTasks_importance (a b : Task) :
  - importance a < - importance b -> compareTasks a b < 0 /\ 0 < compareTasks b a.
Proof.
  intros H. unfold compareTasks.
  destruct (Z.eqb_spec (importance b) (importance a)) as [E|_]; [lia|].
  destruct (Z.eqb_spec (importance a) (importance b)) as [E|_]; [lia|].
  cbn. lia.
Qed.

(** X8.  [sortTasksByAI] returns the tasks it was given, no more and no
    fewer, changed in [scheduledTime] at most, and in an order in which
    importance never increases.  (Of the engine's sort: that its result
    holds the elements of the array, and that it keeps in order a key the
    comparator never contradicts.) *)
Theorem sortTasksByAI_rearranges (tz : Zone) (sort : Engine) (now : nat -> Date)
    (tasks : list Task) :
  permutes sort -> sortsByKey sort ->
  with_scheduledTime None <$> sortTasksByAI tz sort now tasks
    ≡ₚ with_scheduledTime None <$> tasks
  /\ forall (i j : nat) (a b : Task),
       (i <= j)%nat ->
       sortTasksByAI tz sort now tasks !! i = Some a ->
       sortTasksByAI tz sort now tasks !! j = Some b ->
       importance b <= importance a.
Proof.
  intros Hperm Hkey. split.
  - rewrite (fmap_sortTasksByAI (with_scheduledTime None))
      by apply unschedule_scheduleTask.
    rewrite (sortedTasks_Permutation sort tasks Hperm). reflexivity.
  - intros i j a b Hij Hi Hj. rewrite sortTasksByAI_lookup in Hi, Hj.
    destruct (sortedTasks sort tasks !! i) as [a0|] eqn:Ei; [|discriminate Hi].
    destruct (sortedTasks sort tasks !! j) as [b0|] eqn:Ej; [|discriminate Hj].
    cbn in Hi, Hj. injection Hi as <-. injection Hj as <-.
    rewrite !importance_scheduleTask.
    pose proof (Hkey (fun task => - importance task) compareTasks tasks
                  (fun a b _ _ => compareTasks_importance a b) i j a0 b0 Hij Ei Ej).
    cbn in *. lia.
Qed.

(** X9.  The [scheduledTime] of a task with a due date depends on the task
    alone: not on the clock, not on its position, not on the other tasks.
    In a zone whose clock shows 9:00, 13:00 and 15:00 on every day, has no
    gap that runs over midnight, and whose offset changes by less than nine
    hours, it is an instant before the due date. *)
Theorem sortTasksByAI_due_task_fixed (tz : Zone) (sort sort' : Engine)
    (now now' : nat -> Date) (tasks tasks' : list Task) (i j : nat)
    (task : Task) (due : Date) :
  sortedTasks sort tasks !! i = Some task -> sortedTasks sort' tasks' !! j = Some task ->
  completed task = false -> scheduledTime task = None ->
  dueDate task = Some due ->
  exists (task' : Task) (d : Date),
    sortTasksByAI tz sort now tasks !! i = Some task'
    /\ sortTasksByAI tz sort' now' tasks' !! j = Some task'
    /\ scheduledTime task' = Some d
    /\ (keepsDays tz -> showsSlotHours tz -> offsetSpread tz (9 * msPerHour) ->
        getTime d < getTime due).
Proof.
  intros Hi Hj Hc Hs Hdue.
  exists (with_scheduledTime (Some (targetDate tz now i task)) task),
         (targetDate tz now i task).
  split; [apply sortTasksByAI_lookup_open; assumption|].
  split.
  { rewrite (sortTasksByAI_lookup_open tz sort' now' tasks' j task Hj Hc Hs).
    unfold targetDate. rewrite Hdue. reflexivity. }
  split; [reflexivity|].
  intros Hdays Hshows Hspread.
  apply (getTime_lt_spread tz _ _ _ Hspread).
  rewrite (LocalTime_targetDate tz now i task (showsHour_slotHour tz task Hshows)).
  rewrite (localDay_targetDate_due tz now i task due Hdays Hdue).
  pose proof (localDay_bounds tz due) as Hb.
  pose proof (slotHour_range task) as Hh.
  assert (slotHour task <= 15)
    by (unfold slotHour; destruct (8 <=? importance task); [lia|];
        destruct (6 <=? importance task); lia).
  assert (1 <= daysBeforeDue task) by (rewrite daysBeforeDue_eq; lia).
  unfold MakeDate, MakeTime, msPerDay, msPerHour, msPerMinute, msPerSecond in *. lia.
Qed.

Lemma slotHour_bounds (task : Task) : 9 <= slotHour task <= 15.
Proof.
  unfold slotHour. destruct (8 <=? importance task); [lia|].
  destruct (6 <=? importance task); lia.
Qed.

(** X10.  [sortTasksByAI] does not look at the clock for a task with a due
    date: when the due date is fewer than [daysBeforeDue] days after the
    current day, the [scheduledTime] is an instant that has passed; when it
    is more, one to come.  (Of the zone: that its clock shows 9:00, 13:00
    and 15:00 on every day, has no gap that runs over midnight, and that its
    offset changes by less than nine hours.) *)
Theorem sortTasksByAI_due_task_past (tz : Zone) (sort : Engine) (now : nat -> Date)
    (tasks : list Task) (i : nat) (task : Task) (due : Date) :
  keepsDays tz -> showsSlotHours tz -> offsetSpread tz (9 * msPerHour) ->
  sortedTasks sort tasks !! i = Some task ->
  completed task = false -> scheduledTime task = None ->
  dueDate task = Some due ->
  exists (task' : Task) (d : Date),
    sortTasksByAI tz sort now tasks !! i = Some task'
    /\ scheduledTime task' = Some d
    /\ (localDay tz due - localDay tz (now i) < daysBeforeDue task ->
        getTime d < getTime (now i))
    /\ (daysBeforeDue task < localDay tz due - localDay tz (now i) ->
        getTime (now i) < getTime d).
Proof.
  intros Hdays Hshows Hspread Hi Hc Hs Hdue.
  exists (with_scheduledTime (Some (targetDate tz now i task)) task),
         (targetDate tz now i task).
  split; [apply sortTasksByAI_lookup_open; assumption|].
  split; [reflexivity|].
  pose proof (localDay_bounds tz (now i)) as Hb.
  pose proof (slotHour_bounds task) as Hh.
  pose proof (LocalTime_targetDate tz now i task (showsHour_slotHour tz task Hshows)) as Ht.
  rewrite (localDay_targetDate_due tz now i task due Hdays Hdue) in Ht.
  split; intros H; apply (getTime_lt_spread tz _ _ _ Hspread); rewrite Ht;
    unfold MakeDate, MakeTime, msPerDay, msPerHour, msPerMinute, msPerSecond in *; lia.
Qed.

(** X11.  A task without a due date is never scheduled on a day before the
    current one, yet its [scheduledTime] need not be to come: at one of the
    first three positions of the sorted list it is the current day at the
    hour of its tier, which, the clock not being changed in between, has
    passed exactly when the clock has reached that hour.  From the fourth
    position on it is to come.  (Of the zone: that its clock shows 9:00,
    13:00 and 15:00 on every day, has no gap that runs over midnight, and
    that its offset changes by less than nine hours.) *)
Theorem sortTasksByAI_no_due_task_past (tz : Zone) (sort : Engine) (now : nat -> Date)
    (tasks : list Task) (i : nat) (task : Task) :
  keepsDays tz -> showsSlotHours tz -> offsetSpread tz (9 * msPerHour) ->
  sortedTasks sort tasks !! i = Some task ->
  completed task = false -> scheduledTime task = None ->
  dueDate task = None ->
  exists (task' : Task) (d : Date),
    sortTasksByAI tz sort now tasks !! i = Some task'
    /\ scheduledTime task' = Some d
    /\ localDay tz (now i) <= localDay tz d
    /\ ((i < 3)%nat ->
        localDay tz d = localDay tz (now i)
        /\ (tz (getTime d) true = tz (getTime (now i)) true ->
            (getTime d <= getTime (now i) <-> slotHour task <= getHours tz (now i))))
    /\ ((3 <= i)%nat -> getTime (now i) < getTime d).
Proof.
  intros Hdays Hshows Hspread Hi Hc Hs Hdue.
  exists (with_scheduledTime (Some (targetDate tz now i task)) task),
         (targetDate tz now i task).
  split; [apply sortTasksByAI_lookup_open; assumption|].
  split; [reflexivity|].
  pose proof (localDay_targetDate_no_due tz now i task Hdays Hdue) as Hday.
  pose proof (slotHour_bounds task) as Hh.
  pose proof (localDay_bounds tz (now i)) as Hb.
  pose proof (LocalTime_targetDate tz now i task (showsHour_slotHour tz task Hshows)) as Ht.
  split; [|split].
  - rewrite Hday. assert (0 <= Z.of_nat i / 3) by (apply Z.div_pos; lia). lia.
  - intros Hlt.
    assert (Z.of_nat i / 3 = 0) as H0 by (apply Z.div_small; lia).
    rewrite H0, Z.add_0_r in Hday. split; [exact Hday|]. intros Hoffset.
    rewrite (getHours_le tz (now i) (slotHour task) ltac:(lia)).
    rewrite Hday in Ht. unfold LocalTime in Ht. rewrite Hoffset in Ht.
    unfold LocalTime.
    unfold MakeDate, MakeTime, msPerDay, msPerHour, msPerMinute, msPerSecond in *. lia.
  - intros Hge. apply (getTime_lt_spread tz _ _ _ Hspread). rewrite Ht, Hday.
    assert (1 <= Z.of_nat i / 3) by (apply Z.div_le_lower_bound; lia).
    unfold MakeDate, MakeTime, msPerDay, msPerHour, msPerMinute, msPerSecond in *. lia.
Qed.

(** ** The week view *)

Lemma calendar_of_Day (t1 t2 : Z) :
  Day t1 = Day t2 ->
  YearFromTime t1 = YearFromTime t2 /\ MonthFromTime t1 = MonthFromTime t2
  /\ DateFromTime t1 = DateFromTime t2.
Proof.
  intros E.
  assert (Hy : YearFromTime t1 = YearFromTime t2) by (unfold YearFromTime; rewrite E; reflexivity).
  assert (Hd : DayWithinYear t1 = DayWithinYear t2) by (unfold DayWithinYear; rewrite E, Hy; reflexivity).
  assert (Hl : InLeapYear t1 = InLeapYear t2) by (unfold InLeapYear; rewrite Hy; reflexivity).
  assert (Hm : MonthFromTime t1 = MonthFromTime t2) by (unfold MonthFromTime; rewrite Hd, Hl; reflexivity).
  split; [exact Hy|]. split; [exact Hm|].
  unfold DateFromTime. rewrite Hd, Hm, Hl. reflexivity.
Qed.

Lemma DayFromYear_mono (a b : Z) : a <= b -> DayFromYear a <= DayFromYear b.
Proof. intros H. unfold DayFromYear. Z.div_mod_to_equations. lia. Qed.

Lemma commonEra_localDay (tz : Zone) (d : Date) :
  commonEra tz d <-> DayFromYear 1 <= localDay tz d.
Proof.
  unfold commonEra, getFullYear, localDay.
  pose proof (YearFromTime_spec (LocalTime tz (getTime d))) as H.
  set (Y := YearFromTime (LocalTime tz (getTime d))) in *.
  split; intros Hy.
  - pose proof (DayFromYear_mono 1 Y ltac:(lia)). lia.
  - destruct (Z_lt_le_dec 0 Y) as [|Hle]; [assumption|].
    pose proof (DayFromYear_mono (Y + 1) 1 ltac:(lia)). lia.
Qed.

(** In the common era the text of [format(d, "yyyy-MM-dd")] names the local
    day of [d], and two dates have one text exactly when they fall on one
    local day. *)
Lemma format_yyyy_MM_dd_eq (tz : Zone) (d1 d2 : Date) :
  commonEra tz d1 -> commonEra tz d2 ->
  (format_yyyy_MM_dd tz d1 = format_yyyy_MM_dd tz d2 <-> localDay tz d1 = localDay tz d2).
Proof.
  unfold commonEra, format_yyyy_MM_dd, getFullYear, getMonth, getDate, localDay.
  set (t1 := LocalTime tz (getTime d1)). set (t2 := LocalTime tz (getTime d2)).
  intros H1 H2.
  rewrite (proj2 (Z.ltb_lt 0 (YearFromTime t1)) H1).
  rewrite (proj2 (Z.ltb_lt 0 (YearFromTime t2)) H2).
  split.
  - intros E. injection E as Ey Em Ed.
    pose proof (MakeDay_DateFromTime t1 0) as M1.
    pose proof (MakeDay_DateFromTime t2 0) as M2.
    rewrite !Z.add_0_r in M1, M2.
    assert (Em' : MonthFromTime t1 = MonthFromTime t2) by lia.
    rewrite <- M1, <- M2, Ey, Em', Ed. reflexivity.
  - intros E. destruct (calendar_of_Day t1 t2 E) as (-> & -> & ->). reflexivity.
Qed.

Lemma elem_of_hourTasks (tz : Zone) (tasks : list Task) (day : Date) (hour : Z) (task : Task) :
  task ∈ hourTasks tz tasks day hour
  <-> task ∈ tasks
      /\ exists st : Date,
           scheduledTime task = Some st
           /\ format_yyyy_MM_dd tz st = format_yyyy_MM_dd tz day
           /\ getHours tz st = hour.
Proof.
  unfold hourTasks. rewrite !list_elem_of_In, filter_In.
  destruct (scheduledTime task) as [st|].
  - rewrite andb_true_iff, bool_decide_eq_true, Z.eqb_eq. split.
    + intros (Hin & Hf & Hh). split; [exact Hin|]. exists st. auto.
    + intros (Hin & st' & E & Hf & Hh). injection E as <-. auto.
  - split; [intros [_ H]; discriminate H|].
    intros (_ & st & E & _). discriminate E.
Qed.

(** X12.  A cell of the week view shows the tasks of the list whose
    [scheduledTime] falls on the cell's local day at the cell's hour, at any
    minute of it (dates of the common era).  So a task is shown in cells of
    one day and one hour only. *)
Theorem hourTasks_cell (tz : Zone) (tasks : list Task) (day : Date) (hour : Z)
    (task : Task) (st : Date) :
  scheduledTime task = Some st -> commonEra tz st -> commonEra tz day ->
  (task ∈ hourTasks tz tasks day hour
   <-> task ∈ tasks /\ localDay tz st = localDay tz day /\ getHours tz st = hour)
  /\ forall (day' : Date) (hour' : Z),
       commonEra tz day' ->
       task ∈ hourTasks tz tasks day hour -> task ∈ hourTasks tz tasks day' hour' ->
       localDay tz day' = localDay tz day /\ hour' = hour.
Proof.
  intros Hst Hce Hday.
  assert (Hcell : forall day0 hour0, commonEra tz day0 ->
            (task ∈ hourTasks tz tasks day0 hour0
             <-> task ∈ tasks /\ localDay tz st = localDay tz day0
                 /\ getHours tz st = hour0)).
  { intros day0 hour0 Hce0. rewrite elem_of_hourTasks. split.
    - intros (Hin & st' & E & Hf & Hh). rewrite Hst in E. injection E as <-.
      split; [exact Hin|]. split; [|exact Hh].
      apply format_yyyy_MM_dd_eq; assumption.
    - intros (Hin & Hd & Hh). split; [exact Hin|]. exists st.
      split; [exact Hst|]. split; [|exact Hh].
      apply format_yyyy_MM_dd_eq; assumption. }
  split; [apply Hcell, Hday|].
  intros day' hour' Hce' H1 H2.
  apply (Hcell day hour Hday) in H1. apply (Hcell day' hour' Hce') in H2.
  destruct H1 as (_ & D1 & E1), H2 as (_ & D2 & E2). split; congruence.
Qed.

Lemma WeekDay_range (t : Z) : 0 <= WeekDay t <= 6.
Proof. unfold WeekDay. pose proof (Z.mod_pos_bound (Day t + 4) 7). lia. Qed.

(** date-fns [startOfWeek] lands on the local day of the last Sunday. *)
Lemma localDay_startOfWeek (tz : Zone) (today : Date) :
  keepsDays tz ->
  localDay tz (startOfWeek tz today 0) = localDay tz today - getDay tz today.
Proof.
  intros Hdays. unfold startOfWeek.
  replace (mkDate (getTime today)) with today by (destruct today; reflexivity).
  pose proof (WeekDay_range (LocalTime tz (getTime today))) as Hr.
  fold (getDay tz today) in Hr.
  destruct (Z.ltb_spec (getDay tz today) 0) as [Hlt|_]; [lia|].
  rewrite localDay_setHours by (exact Hdays || lia).
  replace (getDate tz today - (0 + getDay tz today - 0))
    with (getDate tz today + - getDay tz today) by lia.
  rewrite localDay_setDate by exact Hdays. lia.
Qed.

Lemma LocalTime_startOfWeek (tz : Zone) (today : Date) :
  keepsDays tz -> showsHour tz 0 ->
  LocalTime tz (getTime (startOfWeek tz today 0))
  = MakeDate (localDay tz today - getDay tz today) (MakeTime 0 0 0 0).
Proof.
  intros Hdays Hshows. rewrite <- (localDay_startOfWeek tz today Hdays).
  unfold startOfWeek at 1.
  set (d := setDate tz _ _).
  pose proof (LocalTime_setHours tz d 0 (Hshows _)) as E.
  rewrite E. f_equal. symmetry.
  apply (whole_hour_date tz _ _ 0 ltac:(lia) E).
Qed.

(** date-fns [addDays] lands [amount] local days on. *)
Lemma localDay_addDays (tz : Zone) (d : Date) (amount : Z) :
  keepsDays tz -> localDay tz (addDays tz d amount) = localDay tz d + amount.
Proof.
  intros Hdays. unfold addDays.
  replace (mkDate (getTime d)) with d by (destruct d; reflexivity).
  destruct (Z.eqb_spec amount 0) as [->|_]; [lia|].
  apply localDay_setDate, Hdays.
Qed.

(** Moved by whole days, a local midnight stays a local midnight. *)
Lemma LocalTime_addDays_midnight (tz : Zone) (d : Date) (day amount : Z) :
  showsHour tz 0 ->
  LocalTime tz (getTime d) = MakeDate day (MakeTime 0 0 0 0) ->
  LocalTime tz (getTime (addDays tz d amount)) = MakeDate (day + amount) (MakeTime 0 0 0 0).
Proof.
  intros Hshows E. unfold addDays.
  replace (mkDate (getTime d)) with d by (destruct d; reflexivity).
  destruct (Z.eqb_spec amount 0) as [->|_]; [rewrite E, Z.add_0_r; reflexivity|].
  rewrite getTime_setDate.
  destruct (whole_hour_date tz d day 0 ltac:(lia) E) as [-> _].
  rewrite E, (TimeWithinDay_MakeDate day 0) by lia.
  change (0 * msPerHour) with (MakeTime 0 0 0 0). apply Hshows.
Qed.

Lemma weekDays_lookup_eq (tz : Zone) (today : Date) (a : nat) (day : Date) :
  weekDays tz today !! a = Some day ->
  (a < 7)%nat /\ day = addDays tz (startOfWeek tz today 0) (Z.of_nat a).
Proof.
  unfold weekDays. intros H.
  apply list_lookup_fmap_Some in H as (k & -> & Hk).
  apply lookup_seq in Hk as [-> Ha]. split; [exact Ha | reflexivity].
Qed.

Lemma weekDays_lookup_lt (tz : Zone) (today : Date) (a : nat) :
  (a < 7)%nat -> exists day, weekDays tz today !! a = Some day.
Proof.
  intros Ha. apply lookup_lt_is_Some. unfold weekDays.
  rewrite length_fmap, length_seq. exact Ha.
Qed.

Lemma localDay_weekDays (tz : Zone) (today : Date) (a : nat) (day : Date) :
  keepsDays tz ->
  weekDays tz today !! a = Some day ->
  (a < 7)%nat /\ localDay tz day = localDay tz today - getDay tz today + Z.of_nat a.
Proof.
  intros Hdays [Ha ->]%weekDays_lookup_eq. split; [exact Ha|].
  rewrite localDay_addDays, localDay_startOfWeek by exact Hdays. reflexivity.
Qed.

Lemma LocalTime_weekDays (tz : Zone) (today : Date) (a : nat) (day : Date) :
  keepsDays tz -> showsHour tz 0 ->
  weekDays tz today !! a = Some day ->
  LocalTime tz (getTime day)
  = MakeDate (localDay tz today - getDay tz today + Z.of_nat a) (MakeTime 0 0 0 0).
Proof.
  intros Hdays Hshows [Ha ->]%weekDays_lookup_eq.
  apply LocalTime_addDays_midnight; [exact Hshows|].
  apply LocalTime_startOfWeek; assumption.
Qed.

(** X13.  The week view has seven columns: the days from the last Sunday on
    or before [today] to the Saturday after it, in this order, so that
    exactly one column is the day of [today]; and each column is its day at
    local midnight when the clock of the zone shows midnight on every day.
    (Of the zone: that no gap of its clock runs over midnight.) *)
Theorem weekDays_week (tz : Zone) (today : Date) :
  keepsDays tz ->
  length (weekDays tz today) = 7%nat
  /\ (forall (a : nat) (day : Date),
        weekDays tz today !! a = Some day ->
        localDay tz day = localDay tz today - getDay tz today + Z.of_nat a
        /\ getDay tz day = Z.of_nat a
        /\ (showsHour tz 0 ->
            getHours tz day = 0 /\ getMinutes tz day = 0
            /\ getSeconds tz day = 0 /\ getMilliseconds tz day = 0))
  /\ (forall (a : nat) (day : Date),
        weekDays tz today !! a = Some day ->
        (localDay tz day = localDay tz today <-> Z.of_nat a = getDay tz today))
  /\ exists (a : nat) (day : Date),
       weekDays tz today !! a = Some day /\ localDay tz day = localDay tz today.
Proof.
  intros Hdays.
  pose proof (WeekDay_range (LocalTime tz (getTime today))) as Hr.
  fold (getDay tz today) in Hr.
  split; [unfold weekDays; rewrite length_fmap, length_seq; reflexivity|].
  split; [|split].
  - intros a day Ha.
    destruct (localDay_weekDays tz today a day Hdays Ha) as [Hlt Hl].
    split; [exact Hl|]. split.
    + unfold getDay at 1, WeekDay. fold (localDay tz day). rewrite Hl.
      unfold getDay, WeekDay, localDay in *. Z.div_mod_to_equations. lia.
    + intros Hshows.
      apply (whole_hour_date tz day _ 0 ltac:(lia)
               (LocalTime_weekDays tz today a day Hdays Hshows Ha)).
  - intros a day Ha. destruct (localDay_weekDays tz today a day Hdays Ha) as [_ ->]. lia.
  - destruct (weekDays_lookup_lt tz today (Z.to_nat (getDay tz today)) ltac:(lia))
      as [day Hday].
    exists (Z.to_nat (getDay tz today)), day. split; [exact Hday|].
    destruct (localDay_weekDays tz today _ day Hdays Hday) as [_ ->]. lia.
Qed.

Lemma hours_lookup (b : nat) (hour : Z) :
  hours !! b = Some hour <-> (b < 14)%nat /\ hour = Z.of_nat b + 7.
Proof.
  unfold hours. rewrite list_lookup_fmap_Some. split.
  - intros (k & -> & Hk). apply lookup_seq in Hk as [-> Hb]. split; [exact Hb|reflexivity].
  - intros [Hb ->]. exists b. split; [reflexivity|]. apply lookup_seq. split; [reflexivity|exact Hb].
Qed.

Lemma commonEra_weekDays (tz : Zone) (today : Date) (a : nat) (day : Date) :
  keepsDays tz ->
  commonEra tz (startOfWeek tz today 0) -> weekDays tz today !! a = Some day ->
  commonEra tz day.
Proof.
  intros Hdays. rewrite !commonEra_localDay, localDay_startOfWeek by exact Hdays.
  intros H [_ Hd]%(localDay_weekDays tz today a day Hdays). lia.
Qed.

(** Where in the grid of the week view a scheduled task of the list is
    shown. *)
Lemma shown_in_cell (tz : Zone) (today : Date) (tasks : list Task) (task : Task)
    (st : Date) (a b : nat) (day : Date) (hour : Z) :
  keepsDays tz ->
  commonEra tz (startOfWeek tz today 0) ->
  scheduledTime task = Some st -> commonEra tz st ->
  weekDays tz today !! a = Some day -> hours !! b = Some hour ->
  (task ∈ hourTasks tz tasks day hour
   <-> task ∈ tasks
       /\ localDay tz st = localDay tz today - getDay tz today + Z.of_nat a
       /\ getHours tz st = Z.of_nat b + 7).
Proof.
  intros Hdays Hweek Hst Hce Ha Hb.
  pose proof (commonEra_weekDays tz today a day Hdays Hweek Ha) as Hday.
  destruct (localDay_weekDays tz today a day Hdays Ha) as [_ Hl].
  apply hours_lookup in Hb as [_ ->].
  rewrite elem_of_hourTasks, <- Hl. split.
  - intros (Hin & st' & E & Hf & Hh). rewrite Hst in E. injection E as <-.
    split; [exact Hin|]. split; [|exact Hh]. apply format_yyyy_MM_dd_eq; assumption.
  - intros (Hin & Hd & Hh). split; [exact Hin|]. exists st.
    split; [exact Hst|]. split; [|exact Hh]. apply format_yyyy_MM_dd_eq; assumption.
Qed.

Lemma shownInWeek_iff (tz : Zone) (today : Date) (tasks : list Task) (task : Task)
    (st : Date) :
  keepsDays tz ->
  commonEra tz (startOfWeek tz today 0) ->
  scheduledTime task = Some st -> commonEra tz st ->
  (shownInWeek tz today tasks task
   <-> task ∈ tasks
       /\ 0 <= localDay tz st - (localDay tz today - getDay tz today) <= 6
       /\ 7 <= getHours tz st <= 20).
Proof.
  intros Hdays Hweek Hst Hce. unfold shownInWeek. split.
  - intros (a & b & day & hour & Ha & Hb & Hin).
    apply (shown_in_cell tz today tasks task st a b day hour) in Hin; try assumption.
    destruct Hin as (Hin & Hd & Hh).
    apply weekDays_lookup_eq in Ha as [Ha _]. apply hours_lookup in Hb as [Hb _].
    split; [exact Hin|]. lia.
  - intros (Hin & Hd & Hh).
    set (a := Z.to_nat (localDay tz st - (localDay tz today - getDay tz today))).
    set (b := Z.to_nat (getHours tz st - 7)).
    destruct (weekDays_lookup_lt tz today a ltac:(lia)) as [day Hday].
    exists a, b, day, (Z.of_nat b + 7). split; [exact Hday|].
    assert (Hb : hours !! b = Some (Z.of_nat b + 7))
      by (apply hours_lookup; split; [lia|reflexivity]).
    split; [exact Hb|].
    apply (shown_in_cell tz today tasks task st a b day); try assumption.
    split; [exact Hin|]. lia.
Qed.

(** X14.  In the week view of [today] a task of the list is shown in
    exactly one cell when its [scheduledTime] falls in the displayed week,
    Sunday to Saturday, at an hour from 7 to 20, and in no cell otherwise: a
    task without [scheduledTime], one of another week or one at another
    hour is not in the grid (dates of the common era; of the zone: that no
    gap of its clock runs over midnight). *)
Theorem shownInWeek_cells (tz : Zone) (today : Date) (tasks : list Task) (task : Task) :
  keepsDays tz ->
  commonEra tz (startOfWeek tz today 0) ->
  (scheduledTime task = None -> ~ shownInWeek tz today tasks task)
  /\ forall st : Date,
       scheduledTime task = Some st -> commonEra tz st ->
       (shownInWeek tz today tasks task
        <-> task ∈ tasks
            /\ 0 <= localDay tz st - (localDay tz today - getDay tz today) <= 6
            /\ 7 <= getHours tz st <= 20)
       /\ forall (a b a' b' : nat) (day day' : Date) (hour hour' : Z),
            weekDays tz today !! a = Some day -> hours !! b = Some hour ->
            weekDays tz today !! a' = Some day' -> hours !! b' = Some hour' ->
            task ∈ hourTasks tz tasks day hour ->
            task ∈ hourTasks tz tasks day' hour' ->
            a = a' /\ b = b'.
Proof.
  intros Hdays Hweek. split.
  - intros Hnone (a & b & day & hour & _ & _ & Hin).
    apply elem_of_hourTasks in Hin as (_ & st & E & _). congruence.
  - intros st Hst Hce. split; [apply shownInWeek_iff; assumption|].
    intros a b a' b' day day' hour hour' Ha Hb Ha' Hb' H1 H2.
    apply (shown_in_cell tz today tasks task st a b day hour) in H1; try assumption.
    apply (shown_in_cell tz today tasks task st a' b' day' hour') in H2; try assumption.
    lia.
Qed.

Lemma commonEra_later (tz : Zone) (d e : Date) :
  commonEra tz d -> localDay tz d <= localDay tz e -> commonEra tz e.
Proof. rewrite !commonEra_localDay. lia. Qed.

(** X15.  The hours [sortTasksByAI] gives are hours the week view has, but
    its days run past the week: a task without due date that it schedules
    at position [index] of the sorted list is shown in the week view of the
    current day exactly when [floor(index / 3)] days from today is no later
    than Saturday.  (Dates of the common era; of the zone: that its clock
    shows 9:00, 13:00 and 15:00 on every day and no gap of it runs over
    midnight.) *)
Theorem sortTasksByAI_shown_no_due (tz : Zone) (sort : Engine) (now : nat -> Date)
    (today : Date) (tasks : list Task) (i : nat) (task : Task) :
  keepsDays tz -> showsSlotHours tz ->
  commonEra tz (startOfWeek tz today 0) ->
  localDay tz (now i) = localDay tz today ->
  sortedTasks sort tasks !! i = Some task ->
  completed task = false -> scheduledTime task = None -> dueDate task = None ->
  exists (task' : Task) (d : Date),
    sortTasksByAI tz sort now tasks !! i = Some task'
    /\ scheduledTime task' = Some d
    /\ 7 <= getHours tz d <= 20
    /\ (shownInWeek tz today (sortTasksByAI tz sort now tasks) task'
        <-> Z.of_nat i / 3 + getDay tz today <= 6).
Proof.
  intros Hdays Hshows Hweek Hnow Hi Hc Hs Hdue.
  exists (with_scheduledTime (Some (targetDate tz now i task)) task),
         (targetDate tz now i task).
  pose proof (sortTasksByAI_lookup_open tz sort now tasks i task Hi Hc Hs) as Hout.
  split; [exact Hout|]. split; [reflexivity|].
  destruct (time_of_day_targetDate tz now i task (showsHour_slotHour tz task Hshows))
    as (Hh & _).
  pose proof (slotHour_bounds task) as Hr.
  pose proof (localDay_targetDate_no_due tz now i task Hdays Hdue) as Hday.
  pose proof (WeekDay_range (LocalTime tz (getTime today))) as Hw.
  fold (getDay tz today) in Hw.
  assert (0 <= Z.of_nat i / 3) by (apply Z.div_pos; lia).
  split; [lia|].
  rewrite (shownInWeek_iff tz today _ _ (targetDate tz now i task));
    [|assumption|assumption|reflexivity|].
  - rewrite Hday, Hnow, Hh. split.
    + intros (_ & Hd & _). lia.
    + intros Hle. split; [eapply list_elem_of_lookup_2, Hout|]. lia.
  - apply (commonEra_later tz (startOfWeek tz today 0)); [assumption|].
    rewrite localDay_startOfWeek, Hday, Hnow by exact Hdays. lia.
Qed.

Lemma commonEra_same_day (tz : Zone) (d e : Date) :
  localDay tz d = localDay tz e -> commonEra tz d -> commonEra tz e.
Proof. rewrite !commonEra_localDay. lia. Qed.

(** X16.  Dragging a task of the list from the sidebar and dropping it on a
    cell of the week view whose time the clock of the zone shows, the parser
    reading back the id that was written: the task moves to that cell, where
    the view then shows it and nowhere else, and every task with another id
    keeps its place and its fields. *)
Theorem drag_and_drop_shown (tz : Zone) (JSON_parse : string -> option JSValue)
    (JSON_stringify : JSValue -> string) (toISOString : Date -> string)
    (task : Task) (tasks : list Task) (day : Date) (hour : Z) :
  task ∈ tasks ->
  parsed_id JSON_parse (handleDragStart JSON_stringify toISOString task)
  = Some (JSString (id task)) ->
  0 <= hour < 24 -> commonEra tz day ->
  regular tz (MakeDate (localDay tz day) (MakeTime hour 0 0 0)) ->
  let tasks' :=
    dropTask tz JSON_parse (handleDragStart JSON_stringify toISOString task)
             day (Some hour) tasks in
  exists (task' : Task) (slot : Date),
    task' ∈ tasks' /\ scheduledTime task' = Some slot
    /\ same_but_scheduledTime task task'
    /\ task' ∈ hourTasks tz tasks' day hour
    /\ (forall (day' : Date) (hour' : Z),
          commonEra tz day' -> task' ∈ hourTasks tz tasks' day' hour' ->
          localDay tz day' = localDay tz day /\ hour' = hour)
    /\ (forall (i : nat) (t : Task),
          tasks !! i = Some t -> id t <> id task -> tasks' !! i = Some t).
Proof.
  intros Hin Hparse Hh Hday Hregular. cbv zeta.
  set (payload := handleDragStart JSON_stringify toISOString task).
  set (slot := setHours tz day hour 0 0 0).
  assert (Hdrop : dropTask tz JSON_parse payload day (Some hour) tasks
                  = updateTask (JSString (id task)) (scheduledTime_update slot) tasks).
  { unfold dropTask. rewrite handleDrop_parsed_id. subst payload. rewrite Hparse.
    cbn [fmap option_fmap option_map]. subst slot. destruct day. reflexivity. }
  rewrite Hdrop.
  destruct (whole_hour_date tz slot _ hour Hh (LocalTime_setHours tz day hour Hregular))
    as (Hslot_day & Hslot_hour & _).
  assert (Hslot_ce : commonEra tz slot)
    by (apply (commonEra_same_day tz day); [symmetry|]; assumption).
  assert (Hmem : with_scheduledTime (Some slot) task
                 ∈ updateTask (JSString (id task)) (scheduledTime_update slot) tasks).
  { apply list_elem_of_lookup_1 in Hin as [i Hi].
    eapply list_elem_of_lookup_2.
    rewrite (updateTask_lookup_same _ _ _ _ _ Hi eq_refl). reflexivity. }
  exists (with_scheduledTime (Some slot) task), slot.
  split; [exact Hmem|]. split; [reflexivity|].
  split; [apply same_but_with_scheduledTime|].
  split; [|split].
  - apply elem_of_hourTasks. split; [exact Hmem|]. exists slot.
    split; [reflexivity|]. split; [|exact Hslot_hour].
    apply format_yyyy_MM_dd_eq; assumption.
  - intros day' hour' Hce' H. apply elem_of_hourTasks in H as (_ & st & E & Hf & Hh').
    cbn in E. injection E as <-.
    apply format_yyyy_MM_dd_eq in Hf; [|assumption..]. split; congruence.
  - intros i t Hi Hne. apply updateTask_lookup_other; [exact Hi|congruence].
Qed.

Lemma unschedule_dropTask (tz : Zone) (JSON_parse : string -> option JSValue)
    (payload : string) (date : Date) (hour : option Z) (tasks : list Task) :
  with_scheduledTime None <$> dropTask tz JSON_parse payload date hour tasks
  = with_scheduledTime None <$> tasks.
Proof.
  unfold dropTask. rewrite handleDrop_parsed_id.
  destruct (parsed_id JSON_parse payload) as [id'|];
    cbn [fmap option_fmap option_map]; [|reflexivity].
  induction tasks as [|task tasks IH]; [reflexivity|].
  rewrite updateTask_cons, !fmap_cons, IH. f_equal.
  destruct (strict_equals (id task) id'); reflexivity.
Qed.

(** X17.  Whatever is dragged over, away from and dropped on the week view,
    with whatever payloads, the tasks stay the same tasks in the same order:
    [scheduledTime] is all that changes.  And a drop clears the highlighted
    slot, also when its payload is not read. *)
Theorem dragRun_keeps_tasks (tz : Zone) (JSON_parse : string -> option JSValue)
    (view : ViewState) (events : list DragEvent) :
  with_scheduledTime None <$> viewTasks (dragRun tz JSON_parse view events)
  = with_scheduledTime None <$> viewTasks view
  /\ forall (payload : string) (date : Date) (hour : option Z),
       dragOverSlot (dragRun tz JSON_parse view (events ++ [Drop payload date hour]))
       = None.
Proof.
  split.
  - unfold dragRun. revert view.
    induction events as [|event events IH]; intros view; [reflexivity|].
    cbn [fold_left]. rewrite IH.
    destruct event; cbn [dragStep viewTasks]; try reflexivity.
    apply unschedule_dropTask.
  - intros payload date hour. unfold dragRun. rewrite fold_left_app. reflexivity.
Qed.

(** X18.  The colour of a task is that of its tier in the sidebar and in
    the week view alike, and the tiers are those of [sortTasksByAI]: the
    tasks in the destructive colour are the ones it puts at 9, those in the
    warning colour the ones at 13, all others the ones at 15. *)
Theorem getImportanceColor_tiers (task : Task) :
  (getImportanceColor (importance task) = "border-l-destructive bg-destructive/5"
   <-> getImportanceColor_sidebar (importance task)
       = "bg-destructive text-destructive-foreground")
  /\ (getImportanceColor (importance task) = "border-l-warning bg-warning/5"
      <-> getImportanceColor_sidebar (importance task) = "bg-warning text-foreground")
  /\ (getImportanceColor (importance task) = "border-l-primary bg-primary/5"
      <-> getImportanceColor_sidebar (importance task)
          = "bg-primary text-primary-foreground")
  /\ (getImportanceColor (importance task) = "border-l-muted-foreground bg-muted/30"
      <-> getImportanceColor_sidebar (importance task) = "bg-muted text-muted-foreground")
  /\ (getImportanceColor (importance task) = "border-l-destructive bg-destructive/5"
      <-> slotHour task = 9)
  /\ (getImportanceColor (importance task) = "border-l-warning bg-warning/5"
      <-> slotHour task = 13)
  /\ (getImportanceColor (importance task) = "border-l-primary bg-primary/5"
      \/ getImportanceColor (importance task) = "border-l-muted-foreground bg-muted/30"
      <-> slotHour task = 15).
Proof.
  unfold getImportanceColor, getImportanceColor_sidebar, slotHour.
  destruct (8 <=? importance task); [|destruct (6 <=? importance task);
    [|destruct (4 <=? importance task)]];
    repeat split; intros; try discriminate; try reflexivity; try lia; auto;
    match goal with H : _ \/ _ |- _ => destruct H; discriminate end.
Qed.

(** ** The animated background *)

Section DotsFacts.

Context {Num : Type} (leb : Num -> Num -> bool) (zero : Num)
        (add : Num -> Num -> Num) (neg : Num -> Num).

(** Any two numbers compare (no NaN among them). *)
Hypothesis leb_total : forall a b : Num, leb a b = true \/ leb b a = true.

Lemma clamp_in_range (limit v : Num) :
  leb zero limit = true ->
  leb zero (Math_maximum leb zero (Math_min leb limit v)) = true
  /\ leb (Math_maximum leb zero (Math_min leb limit v)) limit = true.
Proof.
  intros Hlimit. unfold Math_maximum, Math_min.
  assert (Hrefl : forall a, leb a a = true) by (intros a; destruct (leb_total a a); assumption).
  destruct (leb limit v) eqn:E1.
  - rewrite Hlimit. split; [exact Hlimit | apply Hrefl].
  - destruct (leb zero v) eqn:E2.
    + split; [exact E2|]. destruct (leb_total limit v) as [H|H]; congruence.
    + split; [apply Hrefl | exact Hlimit].
Qed.

Lemma moveDot_in_canvas (width height : Num) (dot : Dot) :
  leb zero width = true -> leb zero height = true ->
  let dot' := moveDot leb zero add neg width height dot in
  leb zero (x dot') = true /\ leb (x dot') width = true
  /\ leb zero (y dot') = true /\ leb (y dot') height = true.
Proof.
  intros Hw Hh. cbv zeta. unfold moveDot. cbn [x y].
  destruct (clamp_in_range width (add (x dot) (vx dot)) Hw) as [H1 H2].
  destruct (clamp_in_range height (add (y dot) (vy dot)) Hh) as [H3 H4].
  auto.
Qed.

Lemma animation_snoc (sizes : list (Num * Num)) (size : Num * Num) (dots : list Dot) :
  animation leb zero add neg (sizes ++ [size]) dots
  = animate leb zero add neg (fst size) (snd size) (animation leb zero add neg sizes dots).
Proof. unfold animation. rewrite fold_left_app. reflexivity. Qed.

Lemma animation_length (sizes : list (Num * Num)) (dots : list Dot) :
  length (animation leb zero add neg sizes dots) = length dots.
Proof.
  unfold animation. revert dots.
  induction sizes as [|size sizes IH]; intros dots; [reflexivity|].
  cbn [fold_left]. rewrite IH. unfold animate. apply length_map.
Qed.

(** X19.  After every frame every dot is on the canvas as it is at that
    frame, wherever the dot was before (a resize may have left it outside)
    and however the addition rounds; no frame adds or drops a dot. *)
Theorem animation_stays_in_canvas (sizes : list (Num * Num)) (width height : Num)
    (dots : list Dot) :
  leb zero width = true -> leb zero height = true ->
  length (animation leb zero add neg (sizes ++ [(width, height)]) dots) = length dots
  /\ forall dot : Dot,
       dot ∈ animation leb zero add neg (sizes ++ [(width, height)]) dots ->
       leb zero (x dot) = true /\ leb (x dot) width = true
       /\ leb zero (y dot) = true /\ leb (y dot) height = true.
Proof.
  intros Hw Hh. split; [apply animation_length|].
  intros dot. rewrite animation_snoc. unfold animate. cbn [fst snd].
  rewrite list_elem_of_In, in_map_iff. intros (dot0 & <- & _).
  apply moveDot_in_canvas; assumption.
Qed.

End DotsFacts.

Section DotsSpeed.

Context {Num : Type} (leb : Num -> Num -> bool) (zero : Num)
        (add : Num -> Num -> Num) (neg : Num -> Num).

(** Negating twice gives the number back. *)
Hypothesis neg_involutive : forall v : Num, neg (neg v) = v.

Lemma moveDot_speed (width height : Num) (dot : Dot) :
  let dot' := moveDot leb zero add neg width height dot in
  (vx dot' = vx dot \/ vx dot' = neg (vx dot))
  /\ (vy dot' = vy dot \/ vy dot' = neg (vy dot)).
Proof.
  cbv zeta. unfold moveDot. cbn [vx vy].
  split; match goal with |- context [if ?c then _ else _] => destruct c end; auto.
Qed.

(** X20.  Through the whole animation a dot keeps its speed along each
    axis: a frame leaves a velocity as it is or turns it round, so at every
    frame it is the first velocity or its negation. *)
Theorem animation_keeps_speed (sizes : list (Num * Num)) (dots : list Dot)
    (i : nat) (dot' : Dot) :
  animation leb zero add neg sizes dots !! i = Some dot' ->
  exists dot : Dot,
    dots !! i = Some dot
    /\ (vx dot' = vx dot \/ vx dot' = neg (vx dot))
    /\ (vy dot' = vy dot \/ vy dot' = neg (vy dot)).
Proof.
  unfold animation. revert dots dot'.
  induction sizes as [|size sizes IH]; intros dots dot' H; cbn [fold_left] in H.
  - exists dot'. auto.
  - apply IH in H as (dot1 & H1 & Hx & Hy).
    unfold animate in H1. change (map ?f dots) with (f <$> dots) in H1.
    apply list_lookup_fmap_Some in H1 as (dot & -> & Hdot).
    exists dot. split; [exact Hdot|].
    destruct (moveDot_speed (fst size) (snd size) dot) as [Hx1 Hy1]. cbv zeta in Hx1, Hy1.
    split.
    + destruct Hx as [-> | ->], Hx1 as [-> | ->]; rewrite ?neg_involutive; auto.
    + destruct Hy as [-> | ->], Hy1 as [-> | ->]; rewrite ?neg_involutive; auto.
Qed.

End DotsSpeed.

Section DotsBounce.

Context {Num : Type} (leb : Num -> Num -> bool) (zero : Num)
        (add : Num -> Num -> Num) (neg : Num -> Num).

Hypothesis leb_total : forall a b : Num, leb a b = true \/ leb b a = true.
(** Numbers that compare both ways are one number (numbers are taken up to
    [===], the two zeros as one), and the order is transitive. *)
Hypothesis leb_antisym : forall a b : Num, leb a b = true -> leb b a = true -> a = b.
Hypothesis leb_trans :
  forall a b c : Num, leb a b = true -> leb b c = true -> leb a c = true.

(** A number in the range is what clamping to the range returns. *)
Lemma clamp_inside (limit v : Num) :
  leb zero v = true -> leb v limit = true ->
  Math_maximum leb zero (Math_min leb limit v) = v.
Proof.
  intros H0 H1. unfold Math_maximum, Math_min.
  destruct (leb limit v) eqn:E.
  - assert (limit = v) as -> by (apply leb_antisym; assumption).
    rewrite H0. reflexivity.
  - rewrite H0. reflexivity.
Qed.

(** X21.  In one frame a dot whose step stays on the canvas takes the step,
    both velocities as they were; a dot whose step leaves the canvas on the
    right is put on the right edge with its horizontal velocity turned
    round, and one that leaves on the left on the left edge likewise. *)
Theorem moveDot_step_or_bounce (width height : Num) (dot : Dot) :
  leb zero width = true ->
  let x1 := add (x dot) (vx dot) in
  let y1 := add (y dot) (vy dot) in
  let dot' := moveDot leb zero add neg width height dot in
  (leb zero x1 = true -> leb x1 width = true ->
   leb zero y1 = true -> leb y1 height = true ->
   dot' = mkDot x1 y1 (vx dot) (vy dot))
  /\ (leb x1 width = false -> x dot' = width /\ vx dot' = neg (vx dot))
  /\ (leb zero x1 = false -> x dot' = zero /\ vx dot' = neg (vx dot)).
Proof.
  intros Hw. cbv zeta. split; [|split].
  - intros H1 H2 H3 H4. unfold moveDot, ltb.
    rewrite H1, H2, H3, H4. cbn [negb orb].
    rewrite (clamp_inside width _ H1 H2), (clamp_inside height _ H3 H4). reflexivity.
  - intros H. unfold moveDot, ltb, Math_maximum, Math_min. cbn [x vx].
    rewrite H. cbn [negb]. rewrite orb_true_r.
    destruct (leb_total width (add (x dot) (vx dot))) as [E|E]; [|congruence].
    rewrite E, Hw. split; reflexivity.
  - intros H. unfold moveDot, ltb, Math_maximum, Math_min. cbn [x vx].
    rewrite H. cbn [negb orb]. split; [|reflexivity].
    destruct (leb width (add (x dot) (vx dot))) eqn:E.
    + rewrite (leb_trans _ _ _ Hw E) in H. discriminate H.
    + rewrite H. reflexivity.
Qed.

End DotsBounce.

(** ** The further properties at work on the sample data *)

(** X3: no task the page starts with has the id 9. *)
Lemma updateTask_absent_witness :
  updateTask (JSString "9") (scheduledTime_update (Date_of zone 2025 0 26 10 0))
    (initialTasks zone)
  = initialTasks zone.
Proof.
  apply updateTask_absent. intros task Ht E.
  unfold initialTasks in Ht.
  repeat (apply elem_of_cons in Ht as [-> | Ht]; [discriminate E|]).
  inversion Ht.
Defined.

(** X4: the task with id 2 is dropped on one slot, then on another. *)
Lemma updateTask_twice_witness :
  updateTask (JSString "2") (scheduledTime_update (Date_of zone 2025 0 27 15 0))
    (updateTask (JSString "2") (scheduledTime_update (Date_of zone 2025 0 26 10 0))
       (initialTasks zone))
  = updateTask (JSString "2") (scheduledTime_update (Date_of zone 2025 0 27 15 0))
      (initialTasks zone).
Proof.
  apply (updateTask_twice (JSString "2")
           (scheduledTime_update (Date_of zone 2025 0 26 10 0))
           (scheduledTime_update (Date_of zone 2025 0 27 15 0))
           (initialTasks zone)).
  reflexivity.
Defined.

(** X5: the tasks with ids 1 and 2 are dropped on slots, in either order. *)
Lemma updateTask_commute_witness :
  updateTask (JSString "1") (scheduledTime_update (Date_of zone 2025 0 27 15 0))
    (updateTask (JSString "2") (scheduledTime_update (Date_of zone 2025 0 26 10 0))
       (initialTasks zone))
  = updateTask (JSString "2") (scheduledTime_update (Date_of zone 2025 0 26 10 0))
      (updateTask (JSString "1") (scheduledTime_update (Date_of zone 2025 0 27 15 0))
         (initialTasks zone)).
Proof.
  apply updateTask_commute; [discriminate | reflexivity | reflexivity].
Defined.

Lemma NoDup_ids_backlog : NoDup (id <$> backlog).
Proof. refine (bool_decide_unpack _ _); vm_compute; exact I. Qed.

(** X6: two clicks on the task [a] of the backlog. *)
Lemma toggleCompleted_twice_witness :
  completed <$> toggleCompleted taskA backlog = [false; true; false; false; true]
  /\ toggleCompleted (clicked taskA) (toggleCompleted taskA backlog) = backlog.
Proof.
  split; [reflexivity|].
  apply (toggleCompleted_twice taskA backlog NoDup_ids_backlog).
  unfold backlog. right. left.
Defined.

(** X7: the sample session keeps the ids apart, and they end all
    different. *)
Lemma ids_stay_unique_witness :
  NoDup (id <$> run zone stableSort sampleParse (initialTasks zone) sampleSession).
Proof.
  apply (ids_stay_unique zone stableSort sampleParse (initialTasks zone) sampleSession
           stableSort_permutes).
  - refine (bool_decide_unpack _ _); vm_compute; exact I.
  - cbn [session_keeps_ids_apart sampleSession keeps_ids_apart].
    repeat split. refine (bool_decide_unpack _ _); vm_compute; exact I.
Defined.

(** X8: the backlog comes out as the tasks it holds, and with the
    importances 10, 9, 9, 7, 3. *)
Lemma sortTasksByAI_rearranges_witness :
  with_scheduledTime None <$> sortTasksByAI zone stableSort (morning zone) backlog
    ≡ₚ with_scheduledTime None <$> backlog
  /\ importance <$> sortTasksByAI zone stableSort (morning zone) backlog = [10; 9; 9; 7; 3].
Proof.
  split; [|vm_compute; reflexivity].
  apply (sortTasksByAI_rearranges zone stableSort (morning zone) backlog
           stableSort_permutes stableSort_sortsByKey).
Defined.

(** X9: the task [d] in the backlog, sorted in the morning, and alone,
    sorted in the evening by another engine. *)
Lemma sortTasksByAI_due_task_fixed_witness :
  exists (task' : Task) (d : Date),
    sortTasksByAI zone stableSort (morning zone) backlog !! 3%nat = Some task'
    /\ sortTasksByAI zone mergeSort (evening zone) [taskD] !! 0%nat = Some task'
    /\ scheduledTime task' = Some d
    /\ getTime d < getTime (Date_of zone 2025 0 24 0 0).
Proof.
  destruct (sortTasksByAI_due_task_fixed zone stableSort mergeSort (morning zone)
              (evening zone) backlog [taskD] 3 0 taskD (Date_of zone 2025 0 24 0 0)
              eq_refl eq_refl eq_refl eq_refl eq_refl)
    as (task' & d & H1 & H2 & Hd & Hbefore).
  exists task', d. repeat (split; [assumption|]).
  apply Hbefore; [apply zone_keepsDays | apply zone_showsSlotHours | apply zone_offsetSpread].
Defined.

(** X10: a task of importance 1 due tomorrow is scheduled five days before,
    four days ago. *)
Lemma sortTasksByAI_due_task_past_witness :
  exists (task' : Task) (d : Date),
    sortTasksByAI zone stableSort (morning zone) [taskLate] !! 0%nat = Some task'
    /\ scheduledTime task' = Some d
    /\ getTime d < getTime (morning zone 0%nat).
Proof.
  destruct (sortTasksByAI_due_task_past zone stableSort (morning zone) [taskLate] 0
              taskLate (Date_of zone 2025 0 23 0 0)
              zone_keepsDays zone_showsSlotHours zone_offsetSpread
              eq_refl eq_refl eq_refl eq_refl)
    as (task' & d & Hout & Hd & Hpast & _).
  exists task', d. split; [exact Hout|]. split; [exact Hd|].
  apply Hpast. vm_compute. reflexivity.
Defined.

(** X11: sorted in the evening, the task [a] of the backlog is scheduled
    for the same day. *)
Lemma sortTasksByAI_no_due_task_past_witness :
  exists (task' : Task) (d : Date),
    sortTasksByAI zone stableSort (evening zone) backlog !! 1%nat = Some task'
    /\ scheduledTime task' = Some d
    /\ localDay zone d = localDay zone (evening zone 1%nat).
Proof.
  destruct (sortTasksByAI_no_due_task_past zone stableSort (evening zone) backlog 1 taskA
              zone_keepsDays zone_showsSlotHours zone_offsetSpread
              eq_refl eq_refl eq_refl eq_refl)
    as (task' & d & Hout & Hd & _ & Hsame & _).
  exists task', d. split; [exact Hout|]. split; [exact Hd|].
  apply Hsame. lia.
Defined.

(** The year 0 is printed as the year 1 is: the fifth of January of both
    has one text, which is why the statements on the week view speak of the
    common era. *)
Example format_yyyy_MM_dd_era :
  let d0 := mkDate ((DayFromYear 0 + 4) * msPerDay + 18000000) in
  let d1 := mkDate ((DayFromYear 1 + 4) * msPerDay + 18000000) in
  format_yyyy_MM_dd zone d0 = (1, 1, 5) /\ format_yyyy_MM_dd zone d1 = (1, 1, 5)
  /\ localDay zone d1 - localDay zone d0 = 366.
Proof. vm_compute. repeat split; reflexivity. Qed.

(** X12: the placed task is shown in the cell of Wednesday at 18. *)
Lemma hourTasks_cell_witness :
  taskPlaced ∈ hourTasks zone [taskC; taskPlaced] wednesday 18.
Proof.
  apply (hourTasks_cell zone [taskC; taskPlaced] wednesday 18 taskPlaced
           (Date_of zone 2025 0 22 18 0)).
  - reflexivity.
  - vm_compute. reflexivity.
  - vm_compute. reflexivity.
  - split; [right; left|]. split; vm_compute; reflexivity.
Defined.

(** X13: Wednesday 22 January 2025 is the fourth column of its week. *)
Lemma weekDays_week_witness :
  exists day : Date,
    weekDays zone wednesday !! 3%nat = Some day
    /\ localDay zone day = localDay zone wednesday.
Proof.
  destruct (weekDays_week zone wednesday zone_keepsDays) as (_ & _ & Htoday & _).
  destruct (weekDays_lookup_lt zone wednesday 3 ltac:(lia)) as [day Hday].
  exists day. split; [exact Hday|]. apply (Htoday 3%nat day Hday).
  vm_compute. reflexivity.
Defined.

(** X14: the placed task is in the grid of the week of that Wednesday. *)
Lemma shownInWeek_cells_witness :
  shownInWeek zone wednesday [taskC; taskPlaced] taskPlaced.
Proof.
  assert (Hweek : commonEra zone (startOfWeek zone wednesday 0))
    by (vm_compute; reflexivity).
  destruct (shownInWeek_cells zone wednesday [taskC; taskPlaced] taskPlaced
              zone_keepsDays Hweek)
    as [_ H].
  destruct (H (Date_of zone 2025 0 22 18 0) eq_refl) as [Hiff _];
    [vm_compute; reflexivity|].
  apply Hiff. split; [right; left|]. vm_compute. repeat split; discriminate.
Defined.

(** X15: sorted on that Wednesday, the task [c] of the backlog, at position
    4, is scheduled for Thursday and shown. *)
Lemma sortTasksByAI_shown_no_due_witness :
  exists (task' : Task) (d : Date),
    sortTasksByAI zone stableSort (morning zone) backlog !! 4%nat = Some task'
    /\ scheduledTime task' = Some d
    /\ shownInWeek zone wednesday (sortTasksByAI zone stableSort (morning zone) backlog)
         task'.
Proof.
  assert (Hweek : commonEra zone (startOfWeek zone wednesday 0))
    by (vm_compute; reflexivity).
  assert (Hnow : localDay zone (morning zone 4%nat) = localDay zone wednesday)
    by (vm_compute; reflexivity).
  destruct (sortTasksByAI_shown_no_due zone stableSort (morning zone) wednesday backlog 4
              taskC zone_keepsDays zone_showsSlotHours Hweek Hnow
              eq_refl eq_refl eq_refl eq_refl)
    as (task' & d & Hout & Hd & _ & Hshown).
  exists task', d. split; [exact Hout|]. split; [exact Hd|].
  apply Hshown. vm_compute. discriminate.
Defined.

(** X16: the task with id 1 is dragged and dropped on Wednesday at 10. *)
Lemma drag_and_drop_shown_witness :
  exists (task' : Task) (slot : Date),
    scheduledTime task' = Some slot
    /\ task' ∈ hourTasks zone
         (dropTask zone sampleParse (handleDragStart sampleStringify sampleISO taskOne)
            wednesday (Some 10) [taskC; taskOne])
         wednesday 10.
Proof.
  assert (Hce : commonEra zone wednesday) by (vm_compute; reflexivity).
  destruct (drag_and_drop_shown zone sampleParse sampleStringify sampleISO taskOne
              [taskC; taskOne] wednesday 10)
    as (task' & slot & _ & Hslot & _ & Hshown & _).
  - right. left.
  - vm_compute. reflexivity.
  - lia.
  - exact Hce.
  - apply zone_showsHour; lia.
  - exists task', slot. split; assumption.
Defined.

Lemma Z_leb_total (a b : Z) : (a <=? b) = true \/ (b <=? a) = true.
Proof. destruct (Z.leb_spec a b); [left; reflexivity|right; apply Z.leb_le; lia]. Qed.

(** X19: after the two frames both sample dots are on the canvas of the
    second. *)
Lemma animation_stays_in_canvas_witness :
  Forall (fun dot => (0 <=? x dot) = true /\ (x dot <=? 100) = true
                     /\ (0 <=? y dot) = true /\ (y dot <=? 50) = true)
         (animation Z.leb 0 Z.add Z.opp sampleSizes sampleDots).
Proof.
  apply Forall_forall. intros dot Hdot.
  apply (animation_stays_in_canvas Z.leb 0 Z.add Z.opp Z_leb_total
           [(300, 200)] 100 50 sampleDots eq_refl eq_refl).
  exact Hdot.
Defined.

(** X20: the first sample dot ends with its horizontal velocity turned
    round. *)
Lemma animation_keeps_speed_witness :
  exists dot : Dot,
    sampleDots !! 0%nat = Some dot
    /\ (10 = vx dot \/ 10 = - vx dot) /\ (3 = vy dot \/ 3 = - vy dot).
Proof.
  apply (animation_keeps_speed Z.leb 0 Z.add Z.opp Z.opp_involutive
           sampleSizes sampleDots 0 (mkDot 10 11 10 3)).
  reflexivity.
Defined.

Lemma Z_leb_antisym (a b : Z) : (a <=? b) = true -> (b <=? a) = true -> a = b.
Proof. rewrite !Z.leb_le. lia. Qed.

Lemma Z_leb_trans (a b c : Z) : (a <=? b) = true -> (b <=? c) = true -> (a <=? c) = true.
Proof. rewrite !Z.leb_le. lia. Qed.

(** X21: the first sample dot steps off the canvas on the left and is put
    on the left edge, turned round. *)
Lemma moveDot_step_or_bounce_witness :
  x (moveDot Z.leb 0 Z.add Z.opp 300 200 (mkDot 5 5 (-10) 3)) = 0
  /\ vx (moveDot Z.leb 0 Z.add Z.opp 300 200 (mkDot 5 5 (-10) 3)) = 10.
Proof.
  destruct (moveDot_step_or_bounce Z.leb 0 Z.add Z.opp Z_leb_total Z_leb_antisym
              Z_leb_trans 300 200 (mkDot 5 5 (-10) 3) eq_refl) as (_ & _ & H).
  apply H. reflexivity.
Defined.

(** X2: a task is added to the tasks the page starts with and deleted
    again. *)
Lemma addTask_then_deleteTask_witness :
  deleteTask "1737552600000" (addTask 1737552600000 taskA (initialTasks zone))
  = initialTasks zone.
Proof.
  apply (addTask_then_deleteTask 1737552600000 taskA (initialTasks zone)).
  intros task Ht E. unfold initialTasks in Ht.
  repeat (apply elem_of_cons in Ht as [-> | Ht]; [discriminate E|]).
  inversion Ht.
Defined.

